(** * vid2aud: a shallow embedding of [extract_audio.py]

    The program is sequential orchestration around three external
    collaborators: the process launcher ([subprocess.run]), the file
    system ([os.path.exists], [os.makedirs], [open]) and the downloader
    library ([yt_dlp]).  The embedding keeps the control flow of the source
    (try/except clauses, early returns, the [with] block, the batch loop)
    and replaces every external call by a question to an environment
    [World], whose answer may depend on the whole history of earlier
    calls.  Each function yields a [Run]: its outcome, the file system it
    leaves, the external calls it made and the lines it printed.

    The file system of a run is the part of it the program itself reads
    and writes: a map from the texts of the paths it asks about
    ([os.path.exists]) to what is there, changed only by its own
    successful [os.makedirs], and only at the path it was given.  What
    the collaborators write is outside of it: the parent directories
    that [os.makedirs] creates on the way, the packages that
    [pip3 install] installs, the audio files that the downloader or the
    fallback command leaves in the output directory.  Statements about
    [fs_after] are therefore statements about what the program does to
    the paths it handles, and what a run did to the world is read from
    its [calls]. *)

From Stdlib Require Import ZArith Ascii String.
From stdpp Require Import base strings list gmap pretty.

Local Open Scope Z_scope.
Local Open Scope string_scope.
Local Open Scope list_scope.

(** ** Python values used by the program *)

(** Instances of Python's [Exception] that the program distinguishes.  The
    clause [except Exception] matches every one of them; [sys.exit] raises
    [SystemExit], which is no [Exception] and is modelled by the outcome
    [Exit] below. *)
Inductive exn : Type :=
  | ImportError (msg : string)
  | CalledProcessError (returncode : Z) (msg : string) (stderr : string)
  | OSError (msg : string)
  | OtherException (msg : string).

(** [str(e)], as the f-strings [{e}] print it. *)
Definition exn_str (e : exn) : string :=
  match e with
  | ImportError m => m
  | CalledProcessError _ m _ => m
  | OSError m => m
  | OtherException m => m
  end.

(** [e.stderr] of a [CalledProcessError]. *)
Definition exn_stderr (e : exn) : string :=
  match e with
  | CalledProcessError _ _ err => err
  | _ => ""
  end.

(** The dictionary [ydl_opts] of [extract_audio]. *)
Record postprocessor : Type := mkPostprocessor {
  pp_key : string;
  preferredcodec : string;
  preferredquality : string
}.

Record ydl_opts : Type := mkOpts {
  opt_format : string;
  postprocessors : list postprocessor;
  outtmpl : string;
  opt_quiet : bool;
  no_warnings : bool
}.

(** What a file-system path is, when it exists.  The map of a run holds
    the paths the program asks about, by their text. *)
Inductive node : Type := Dir | File.

(** ** External calls *)

(** One external call together with the answer it got. *)
Inductive event : Type :=
  | EvRun (cmd : list string) (r : exn + string)
  | EvMakedirs (path : string) (r : option exn)
  | EvImport (r : option exn)
  | EvYoutubeDL (opts : ydl_opts) (r : option exn)
  | EvExtractInfo (opts : ydl_opts) (url : string) (r : exn + gmap string string)
  | EvClose (r : option exn)
  | EvOpen (path : string) (r : exn + list string).

(** The environment.  Every answer is a function of the calls made so far
    (oldest first), so the same question may be answered differently at
    different times. *)
Record World : Type := mkWorld {
  (* subprocess.run(cmd, check=True, capture_output=True): stdout, or the
     exception raised (CalledProcessError on a nonzero exit status) *)
  run_result : list event → list string → exn + string;
  (* os.makedirs on a path that does not exist yet *)
  makedirs_fault : list event → string → option exn;
  (* import yt_dlp *)
  import_result : list event → option exn;
  (* yt_dlp.YoutubeDL(opts) and __enter__ *)
  YoutubeDL_result : list event → ydl_opts → option exn;
  (* ydl.extract_info(url, download=True) *)
  extract_info_result : list event → ydl_opts → string → exn + gmap string string;
  (* YoutubeDL.__exit__ *)
  close_result : list event → option exn;
  (* open(path, 'r', encoding='utf-8') and iteration over its lines *)
  open_result : list event → string → exn + list string
}.

(** ** The monad of runs *)

Inductive outcome (A : Type) : Type :=
  | Ret (a : A)
  | Raise (e : exn)
  | Exit (code : Z).
Arguments Ret {A} a.
Arguments Raise {A} e.
Arguments Exit {A} code.

Record Run (A : Type) : Type := mkRun {
  result : outcome A;
  fs_after : gmap string node;
  calls : list event;
  printed : list string
}.
Arguments mkRun {A} _ _ _ _.
Arguments result {A} _.
Arguments fs_after {A} _.
Arguments calls {A} _.
Arguments printed {A} _.

(** A computation reads the history and the file system. *)
Definition M (A : Type) : Type := list event → gmap string node → Run A.

Definition ret {A} (a : A) : M A := λ _ fs, mkRun (Ret a) fs [] [].

Definition raise {A} (e : exn) : M A := λ _ fs, mkRun (Raise e) fs [] [].

(** [sys.exit(code)] *)
Definition sys_exit {A} (code : Z) : M A := λ _ fs, mkRun (Exit code) fs [] [].

Definition bind {A B} (m : M A) (k : A → M B) : M B := λ h fs,
  match m h fs with
  | mkRun (Ret a) fs1 c1 p1 =>
      match k a (h ++ c1) fs1 with
      | mkRun o fs2 c2 p2 => mkRun o fs2 (c1 ++ c2) (p1 ++ p2)
      end
  | mkRun (Raise e) fs1 c1 p1 => mkRun (Raise e) fs1 c1 p1
  | mkRun (Exit c) fs1 c1 p1 => mkRun (Exit c) fs1 c1 p1
  end.

Declare Scope run_scope.
Delimit Scope run_scope with run.
Notation "x <- m ;; k" := (bind m (λ x, k))
  (at level 100, m at next level, right associativity) : run_scope.
Notation "m ;; k" := (bind m (λ _, k))
  (at level 100, right associativity) : run_scope.
Local Open Scope run_scope.

(** [try: body except ...: handler].  [handlers e] is the first clause that
    matches [e], if any; [Exit] is never caught. *)
Definition try_except {A} (body : M A) (handlers : exn → option (M A)) : M A := λ h fs,
  match body h fs with
  | mkRun (Raise e) fs1 c1 p1 =>
      match handlers e with
      | Some hd =>
          match hd (h ++ c1) fs1 with
          | mkRun o fs2 c2 p2 => mkRun o fs2 (c1 ++ c2) (p1 ++ p2)
          end
      | None => mkRun (Raise e) fs1 c1 p1
      end
  | r => r
  end.

(** [print(s)]: one printed line per call. *)
Definition print (s : string) : M unit := λ _ fs, mkRun (Ret tt) fs [] [s].

(** Lifting an answer of the environment into an outcome. *)
Definition of_sum {A} (r : exn + A) : outcome A :=
  match r with inl e => Raise e | inr a => Ret a end.

Definition of_fault (r : option exn) : outcome unit :=
  match r with Some e => Raise e | None => Ret tt end.

(** ** Strings *)

Definition nl : string := String "010"%char "".

(** [s * n] *)
Fixpoint str_mul (s : string) (n : nat) : string :=
  match n with
  | O => ""
  | S n' => s +:+ str_mul s n'
  end.

(** [sep.join(l)] *)
Fixpoint join (sep : string) (l : list string) : string :=
  match l with
  | [] => ""
  | [x] => x
  | x :: rest => x +:+ sep +:+ join sep rest
  end.

(** [s.startswith(p)], returning what follows the prefix. *)
Fixpoint strip_prefix (p s : string) : option string :=
  match p with
  | EmptyString => Some s
  | String a p' =>
      match s with
      | String b s' => if Ascii.eqb a b then strip_prefix p' s' else None
      | EmptyString => None
      end
  end.

(** [str.isspace] on UTF-8 text: the one-byte white space characters
    U+0009-U+000D, U+001C-U+001F and U+0020, the two-byte ones U+0085 and
    U+00A0, and the three-byte ones U+1680, U+2000-U+200A, U+2028, U+2029,
    U+202F, U+205F and U+3000. *)
Definition space1 (a : ascii) : bool :=
  let n := nat_of_ascii a in
  ((9 <=? n) && (n <=? 13) || (28 <=? n) && (n <=? 32))%nat.

Definition space2 (a b : ascii) : bool :=
  let n := nat_of_ascii b in
  (nat_of_ascii a =? 194)%nat && ((n =? 133) || (n =? 160))%nat.

Definition space3 (a b c : ascii) : bool :=
  let x := nat_of_ascii a in
  let y := nat_of_ascii b in
  let z := nat_of_ascii c in
  ((x =? 225) && (y =? 154) && (z =? 128)
   || (x =? 226) && (y =? 128)
      && ((128 <=? z) && (z <=? 138) || (z =? 168) || (z =? 169) || (z =? 175))
   || (x =? 226) && (y =? 129) && (z =? 159)
   || (x =? 227) && (y =? 128) && (z =? 128))%nat.

(** [s.lstrip()] *)
Fixpoint lstrip (s : string) : string :=
  match s with
  | String a s1 =>
      if space1 a then lstrip s1 else
      match s1 with
      | String b s2 =>
          if space2 a b then lstrip s2 else
          match s2 with
          | String c s3 => if space3 a b c then lstrip s3 else s
          | EmptyString => s
          end
      | EmptyString => s
      end
  | EmptyString => EmptyString
  end.

(** [lstrip] on the reversed text, where the bytes of a character come
    last byte first. *)
Fixpoint lstrip_rev (s : string) : string :=
  match s with
  | String a s1 =>
      if space1 a then lstrip_rev s1 else
      match s1 with
      | String b s2 =>
          if space2 b a then lstrip_rev s2 else
          match s2 with
          | String c s3 => if space3 c b a then lstrip_rev s3 else s
          | EmptyString => s
          end
      | EmptyString => s
      end
  | EmptyString => EmptyString
  end.

(** [s.strip()] *)
Definition strip (s : string) : string :=
  String.rev (lstrip_rev (String.rev (lstrip s))).

(** Truth value of a string: [if s]. *)
Definition nonempty (s : string) : bool :=
  match s with EmptyString => false | String _ _ => true end.

(** Truth value of an optional command-line argument ([None] when the
    option is absent): the argument, when it is given and not empty. *)
Definition truthy (o : option string) : option string :=
  match o with
  | Some s => if nonempty s then Some s else None
  | None => None
  end.

(** The locals [success_count], [fail_count] and [failed_urls] of
    [batch_extract_audio]. *)
Record summary : Type := mkSummary {
  success_count : nat;
  fail_count : nat;
  failed_urls : list string
}.

(** The namespace returned by [parser.parse_args()]. *)
Record Args : Type := mkArgs {
  arg_url : option string;
  arg_file : option string;
  arg_output : string;
  arg_format : string;
  arg_quality : string
}.

(** The exit status of the interpreter running [main()]: 0 when [main]
    returns, the argument of [sys.exit], and 1 when an exception is left
    uncaught. *)
Definition exit_code {A} (o : outcome A) : Z :=
  match o with
  | Ret _ => 0
  | Raise _ => 1
  | Exit c => c
  end.

(** [for x in l: body(x)] *)
Fixpoint for_each {A} (l : list A) (body : A → M unit) : M unit :=
  match l with
  | [] => ret tt
  | x :: rest => body x;; for_each rest body
  end.

Section Program.

Variable w : World.

(** ** Primitives *)

(** [subprocess.run(cmd, check=True, capture_output=True)].  What the
    child process writes to disk is its own business and is not tracked:
    the call is recorded in [calls] with its answer, and the map of
    paths is handed on as it is. *)
Definition subprocess_run (cmd : list string) : M string := λ h fs,
  let r := run_result w h cmd in
  mkRun (of_sum r) fs [EvRun cmd r] [].

(** [os.path.exists(path)] *)
Definition os_path_exists (path : string) : M bool := λ _ fs,
  mkRun (Ret (bool_decide (is_Some (fs !! path)))) fs [] [].

(** [os.makedirs(path, exist_ok=True)]: an existing directory is accepted,
    an existing file is refused, anything else is created unless the
    environment faults (permissions, invalid path).  Only the path given
    is entered in the map: the missing parents that the real call
    creates on the way are not, the program never asks about them. *)
Definition os_makedirs (path : string) : M unit := λ h fs,
  match fs !! path with
  | Some Dir => mkRun (Ret tt) fs [EvMakedirs path None] []
  | Some File =>
      let e := OSError ("[Errno 17] File exists: '" +:+ path +:+ "'") in
      mkRun (Raise e) fs [EvMakedirs path (Some e)] []
  | None =>
      let r := makedirs_fault w h path in
      mkRun (of_fault r)
            (match r with Some _ => fs | None => <[path := Dir]> fs end)
            [EvMakedirs path r] []
  end.

(** [import yt_dlp] *)
Definition import_yt_dlp : M unit := λ h fs,
  let r := import_result w h in
  mkRun (of_fault r) fs [EvImport r] [].

(** [with yt_dlp.YoutubeDL(opts) as ydl: body].  The constructor may raise,
    in which case nothing else happens; otherwise [__exit__] runs however
    the body ends, and an exception it raises replaces the body's
    outcome. *)
Definition with_YoutubeDL {A} (opts : ydl_opts) (body : M A) : M A := λ h fs,
  match YoutubeDL_result w h opts with
  | Some e => mkRun (Raise e) fs [EvYoutubeDL opts (Some e)] []
  | None =>
      match body (h ++ [EvYoutubeDL opts None]) fs with
      | mkRun o fs1 c1 p1 =>
          let r := close_result w ((h ++ [EvYoutubeDL opts None]) ++ c1) in
          mkRun (match r with Some e => Raise e | None => o end)
                fs1
                (EvYoutubeDL opts None :: c1 ++ [EvClose r])
                p1
      end
  end.

(** [ydl.extract_info(url, download=True)], lines 96-97.  The answer is
    the info dictionary the program goes on with, or the exception that
    is raised inside the [with] block.  A library that answers [None]
    makes [info.get] of line 97 raise an [AttributeError] inside the
    block, which takes the path of an exception of the call itself; it
    is the answer [inl (OtherException _)] with the text of that error.
    The files the downloader writes under the output directory are not
    tracked. *)
Definition extract_info (opts : ydl_opts) (url : string) : M (gmap string string) := λ h fs,
  let r := extract_info_result w h opts url in
  mkRun (of_sum r) fs [EvExtractInfo opts url r] [].

(** [with open(path, 'r', encoding='utf-8') as f: [... for line in f ...]] *)
Definition open_lines (path : string) : M (list string) := λ h fs,
  let r := open_result w h path in
  mkRun (of_sum r) fs [EvOpen path r] [].

(** ** [check_ffmpeg] *)

Definition check_ffmpeg : M bool :=
  try_except
    (subprocess_run ["which"; "ffmpeg"];;
     ret true)
    (λ e, match e with
          | CalledProcessError _ _ _ => Some (ret false)
          | _ => None
          end).

(** ** [install_dependencies] *)

Definition install_dependencies : M bool :=
  print (nl +:+ str_mul "=" 60);;
  print "正在检查并安装依赖库...";;
  print (str_mul "=" 60);;
  ffmpeg <- check_ffmpeg;;
  (if negb ffmpeg then
     print (nl +:+ "警告: ffmpeg 未安装");;
     print "ffmpeg 是提取和转换音频所必需的工具";;
     print "请按照以下命令安装ffmpeg:";;
     print "  • macOS: brew install ffmpeg";;
     print "  • Linux: sudo apt-get install ffmpeg";;
     print "  • Windows: choco install ffmpeg";;
     print (nl +:+ "继续执行，但音频格式转换可能会失败...")
   else
     print "ffmpeg 已安装");;
  returned <- try_except
    (subprocess_run ["pip3"; "show"; "yt-dlp"];;
     print "yt-dlp 已安装";;
     ret None)
    (λ e, match e with
          | CalledProcessError _ _ _ => Some (
              print "正在安装 yt-dlp...";;
              try_except
                (subprocess_run ["pip3"; "install"; "yt-dlp"];;
                 print "yt-dlp 安装成功";;
                 ret None)
                (λ e', Some (
                   print ("安装 yt-dlp 失败: " +:+ exn_str e');;
                   ret (Some false))))
          | _ => None
          end);;
  match returned with
  | Some b => ret b
  | None => ret true
  end.

(** ** [extract_audio] *)

(** Lines 68-75: the directory stage.  [Some b] means the function has
    returned [b]; [None] means control falls through. *)
Definition ensure_output_dir (output_dir : string) : M (option bool) :=
  present <- os_path_exists output_dir;;
  if negb present then
    try_except
      (os_makedirs output_dir;;
       print ("创建输出目录: " +:+ output_dir);;
       ret None)
      (λ e, Some (
         print ("创建输出目录失败: " +:+ exn_str e);;
         ret (Some false)))
  else ret None.

Definition make_ydl_opts (output_dir audio_format quality : string) : ydl_opts :=
  {| opt_format := "bestaudio/best";
     postprocessors := [ {| pp_key := "FFmpegExtractAudio";
                            preferredcodec := audio_format;
                            preferredquality := quality |} ];
     outtmpl := output_dir +:+ "/%(title)s.%(ext)s";
     opt_quiet := false;
     no_warnings := false |}.

(** Lines 79-105: the body of the outer [try]. *)
Definition extract_with_module (video_url output_dir audio_format quality : string) : M bool :=
  import_yt_dlp;;
  let opts := make_ydl_opts output_dir audio_format quality in
  print (nl +:+ "使用yt-dlp模块提取音频");;
  with_YoutubeDL opts
    (info <- extract_info opts video_url;;
     let title := default "未知" (info !! "title") in
     print (nl +:+ str_mul "=" 60);;
     print "提取音频成功!";;
     print ("视频标题: " +:+ title);;
     print ("输出目录: " +:+ output_dir);;
     print (str_mul "=" 60);;
     ret true).

Definition fallback_cmd (video_url output_dir audio_format quality : string) : list string :=
  [ "python3"; "-m"; "yt_dlp";
    "-x";
    "--audio-format"; audio_format;
    "--audio-quality"; quality;
    "-o"; output_dir +:+ "/%(title)s.%(ext)s";
    video_url ].

(** Lines 107-138: the clause [except ImportError]. *)
Definition extract_with_command (video_url output_dir audio_format quality : string) : M bool :=
  print (nl +:+ "yt-dlp模块导入失败，尝试使用命令行方式...");;
  let cmd := fallback_cmd video_url output_dir audio_format quality in
  print ("执行命令: " +:+ join " " cmd);;
  try_except
    (out <- subprocess_run cmd;;
     print (nl +:+ str_mul "=" 60);;
     print "提取音频成功!";;
     print ("输出: " +:+ out);;
     print (str_mul "=" 60);;
     ret true)
    (λ e, match e with
          | CalledProcessError _ _ _ => Some (
              print (nl +:+ str_mul "=" 60);;
              print ("提取音频失败: " +:+ exn_str e);;
              print ("错误输出: " +:+ exn_stderr e);;
              print (str_mul "=" 60);;
              ret false)
          | _ => Some (
              print (nl +:+ str_mul "=" 60);;
              print ("发生未知错误: " +:+ exn_str e);;
              print (str_mul "=" 60);;
              ret false)
          end).

Definition extract_audio (video_url output_dir audio_format quality : string) : M bool :=
  print (nl +:+ str_mul "=" 60);;
  print "开始从视频提取音频";;
  print ("视频URL: " +:+ video_url);;
  print ("输出目录: " +:+ output_dir);;
  print ("音频格式: " +:+ audio_format);;
  print ("音频质量: " +:+ quality);;
  print (str_mul "=" 60);;
  returned <- ensure_output_dir output_dir;;
  match returned with
  | Some b => ret b
  | None =>
      try_except
        (extract_with_module video_url output_dir audio_format quality)
        (λ e, match e with
              | ImportError _ => Some (
                  extract_with_command video_url output_dir audio_format quality)
              | _ => Some (
                  print (nl +:+ str_mul "=" 60);;
                  print ("发生未知错误: " +:+ exn_str e);;
                  print (str_mul "=" 60);;
                  ret false)
              end)
  end.

(** ** [batch_extract_audio] *)

Section Batch.

Variables (total : nat) (output_dir audio_format quality : string).

(** Lines 167-177: the loop over [enumerate(video_urls, 1)], from item
    number [i] on, with the three counters in [s]. *)
Fixpoint batch_loop (i : nat) (urls : list string) (s : summary) : M summary :=
  match urls with
  | [] => ret s
  | url :: rest =>
      print (nl +:+ str_mul "-" 80);;
      print ("处理第 " +:+ pretty i +:+ "/" +:+ pretty total +:+ " 个视频");;
      print ("URL: " +:+ url);;
      print (str_mul "-" 80);;
      ok <- extract_audio url output_dir audio_format quality;;
      batch_loop (S i) rest
        (if ok then
           {| success_count := success_count s + 1;
              fail_count := fail_count s;
              failed_urls := failed_urls s |}
         else
           {| success_count := success_count s;
              fail_count := fail_count s + 1;
              failed_urls := failed_urls s ++ [url] |})
  end.

End Batch.

(** Lines 179-189: the report. *)
Definition batch_report (s : summary) : M unit :=
  print (nl +:+ str_mul "=" 80);;
  print "批量提取音频完成!";;
  print ("成功: " +:+ pretty (success_count s) +:+ " 个");;
  print ("失败: " +:+ pretty (fail_count s) +:+ " 个");;
  (match failed_urls s with
   | [] => ret tt
   | _ :: _ =>
       print (nl +:+ "失败的URL:");;
       for_each (failed_urls s) (λ url, print ("  - " +:+ url))
   end);;
  print (str_mul "=" 80).

Definition batch_extract_audio (video_urls : list string)
    (output_dir audio_format quality : string) : M unit :=
  print (nl +:+ str_mul "=" 80);;
  print "开始批量提取音频";;
  print ("总视频数: " +:+ pretty (length video_urls));;
  print ("输出目录: " +:+ output_dir);;
  print ("音频格式: " +:+ audio_format);;
  print ("音频质量: " +:+ quality);;
  print (str_mul "=" 80);;
  s <- batch_loop (length video_urls) output_dir audio_format quality 1 video_urls
         {| success_count := 0; fail_count := 0; failed_urls := [] |};;
  batch_report s.

(** ** [main], after [parser.parse_args()] *)

(** [[line.strip() for line in f if line.strip()]] *)
Definition read_urls (lines : list string) : list string :=
  strip <$> filter (λ line, nonempty (strip line) = true) lines.

Definition main (args : Args) : M unit :=
  print "视频音频提取工具 v1.0.0";;
  print "支持从Bilibili、YouTube等网站提取音频";;
  ok <- install_dependencies;;
  (if negb ok then
     print (nl +:+ "依赖安装失败，退出程序");;
     sys_exit 1
   else ret tt);;
  match truthy (arg_url args) with
  | Some url =>
      extract_audio url (arg_output args) (arg_format args) (arg_quality args);;
      ret tt
  | None =>
      match truthy (arg_file args) with
      | Some file =>
          present <- os_path_exists file;;
          (if negb present then
             print (nl +:+ "文件不存在: " +:+ file);;
             sys_exit 1
           else ret tt);;
          try_except
            (lines <- open_lines file;;
             let urls := read_urls lines in
             match urls with
             | _ :: _ =>
                 batch_extract_audio urls (arg_output args) (arg_format args) (arg_quality args)
             | [] =>
                 print (nl +:+ "文件中没有有效的URL");;
                 sys_exit 1
             end)
            (λ e, Some (
               print (nl +:+ "读取文件失败: " +:+ exn_str e);;
               sys_exit 1))
      | None =>
          print (nl +:+ "请指定视频URL或包含URL列表的文件");;
          print "使用 --help 查看帮助信息";;
          sys_exit 1
      end
  end.

End Program.

(** * Example environments *)

(** Everything is installed and every call succeeds. *)
Definition working_world : World :=
  {| run_result := λ _ _, inr "";
     makedirs_fault := λ _ _, None;
     import_result := λ _, None;
     YoutubeDL_result := λ _ _, None;
     extract_info_result := λ _ _ _, inr {[ "title" := "Song" ]};
     close_result := λ _, None;
     open_result := λ _ _, inr [] |}.

(** The downloader library cannot be imported; its command line works. *)
Definition no_module_world : World :=
  {| run_result := λ _ _, inr "";
     makedirs_fault := λ _ _, None;
     import_result := λ _, Some (ImportError "No module named 'yt_dlp'");
     YoutubeDL_result := λ _ _, None;
     extract_info_result := λ _ _ _, inr {[ "title" := "Song" ]};
     close_result := λ _, None;
     open_result := λ _ _, inr [] |}.

(** Directories cannot be created. *)
Definition readonly_world : World :=
  {| run_result := λ _ _, inr "";
     makedirs_fault := λ _ path, Some (OSError ("[Errno 13] Permission denied: '" +:+ path +:+ "'"));
     import_result := λ _, None;
     YoutubeDL_result := λ _ _, None;
     extract_info_result := λ _ _ _, inr {[ "title" := "Song" ]};
     close_result := λ _, None;
     open_result := λ _ _, inr [] |}.

(** There is no [which] executable, as on Windows: launching it raises
    [FileNotFoundError], an [OSError]. *)
Definition no_which_world : World :=
  {| run_result := λ _ cmd,
       if bool_decide (cmd = ["which"; "ffmpeg"])
       then inl (OSError "[Errno 2] No such file or directory: 'which'")
       else inr "";
     makedirs_fault := λ _ _, None;
     import_result := λ _, None;
     YoutubeDL_result := λ _ _, None;
     extract_info_result := λ _ _ _, inr {[ "title" := "Song" ]};
     close_result := λ _, None;
     open_result := λ _ _, inr [] |}.

(** The URL list [urls.txt] holds three URLs and a blank line; the
    download of [https://example.com/v2] fails. *)
Definition one_bad_url_world : World :=
  {| run_result := λ _ _, inr "";
     makedirs_fault := λ _ _, None;
     import_result := λ _, None;
     YoutubeDL_result := λ _ _, None;
     extract_info_result := λ _ _ url,
       if bool_decide (url = "https://example.com/v2")
       then inl (OtherException "ERROR: Unsupported URL: https://example.com/v2")
       else inr {[ "title" := "Song" ]};
     close_result := λ _, None;
     open_result := λ _ _,
       inr [ "https://example.com/v1" +:+ nl; nl; "https://example.com/v2" +:+ nl;
             "  https://example.com/v3" ] |}.

(** * Observations on a run *)

(** The URLs announced by the banner of [extract_audio] (line 62): one per
    invocation of the extractor. *)
Definition invocations (lines : list string) : list string :=
  omap (strip_prefix "视频URL: ") lines.

(** The titles printed by line 102. *)
Definition reported_titles (lines : list string) : list string :=
  omap (strip_prefix "视频标题: ") lines.

(** The error texts printed by lines 74, 130, 136 and 141. *)
Definition error_text (line : string) : option string :=
  match strip_prefix "创建输出目录失败: " line with
  | Some t => Some t
  | None =>
      match strip_prefix "提取音频失败: " line with
      | Some t => Some t
      | None => strip_prefix "发生未知错误: " line
      end
  end.

Definition reported_errors (lines : list string) : list string :=
  omap error_text lines.

(** The exception an external call raised, if it raised one. *)
Definition event_error (ev : event) : option exn :=
  match ev with
  | EvRun _ (inl e) => Some e
  | EvMakedirs _ (Some e) => Some e
  | EvImport (Some e) => Some e
  | EvYoutubeDL _ (Some e) => Some e
  | EvExtractInfo _ _ (inl e) => Some e
  | EvClose (Some e) => Some e
  | EvOpen _ (inl e) => Some e
  | _ => None
  end.

Definition errors (evs : list event) : list exn := omap event_error evs.

(** The infos returned by [extract_info]. *)
Definition event_info (ev : event) : option (gmap string string) :=
  match ev with
  | EvExtractInfo _ _ (inr info) => Some info
  | _ => None
  end.

Definition infos (evs : list event) : list (gmap string string) := omap event_info evs.

(** [info.get('title', '未知')] *)
Definition title_of (info : gmap string string) : string :=
  default "未知" (info !! "title").

(** The files opened for reading. *)
Definition event_open (ev : event) : option string :=
  match ev with
  | EvOpen path _ => Some path
  | _ => None
  end.

Definition opened_files (evs : list event) : list string := omap event_open evs.

(** The downloader call succeeded: an external downloader process exited
    with status 0, or [extract_info] returned an info and the [with] block
    was left without an exception. *)
Definition downloader_succeeded (evs : list event) : bool :=
  existsb (λ ev, match ev with EvRun _ (inr _) => true | _ => false end) evs
  || existsb (λ ev, match ev with EvExtractInfo _ _ (inr _) => true | _ => false end) evs
     && existsb (λ ev, match ev with EvClose None => true | _ => false end) evs.

(** [import yt_dlp] raised [ImportError]: the library is unavailable. *)
Definition import_failed (evs : list event) : bool :=
  existsb (λ ev, match ev with EvImport (Some (ImportError _)) => true | _ => false end) evs.

(** The downloader was reached: the extraction stage starts with the
    import of the library. *)
Definition extraction_attempted (evs : list event) : bool :=
  existsb (λ ev, match ev with EvImport _ => true | _ => false end) evs.

(** A probe of [install_dependencies] could be launched: it exited with
    status 0 or with a nonzero status ([CalledProcessError]). *)
Definition probe_launched (r : exn + string) : bool :=
  match r with
  | inr _ => true
  | inl (CalledProcessError _ _ _) => true
  | inl _ => false
  end.

(** The URLs announced by the batch driver (line 170). *)
Definition batch_items (lines : list string) : list string :=
  omap (strip_prefix "URL: ") lines.

(** The announcements of a batch in the order they are printed: [inl url]
    when the driver takes up a request, [inr url] when the extractor starts
    on it. *)
Definition step_of (line : string) : option (string + string) :=
  match strip_prefix "URL: " line with
  | Some url => Some (inl url)
  | None =>
      match strip_prefix "视频URL: " line with
      | Some url => Some (inr url)
      | None => None
      end
  end.

Definition steps (lines : list string) : list (string + string) :=
  omap step_of lines.

(** The outcomes of the requests of a batch, in order: each request is
    handed to the extractor after the previous one has finished, in the
    history and the file system the previous one left. *)
Fixpoint item_results (w : World) (od f q : string) (urls : list string)
    (h : list event) (fs : gmap string node) : list bool :=
  match urls with
  | [] => []
  | url :: rest =>
      let r := extract_audio w url od f q h fs in
      match result r with
      | Ret ok => ok :: item_results w od f q rest (h ++ calls r) (fs_after r)
      | _ => []
      end
  end.

(** The URLs whose outcome is a failure, in the order of the input. *)
Fixpoint failed_of (urls : list string) (oks : list bool) : list string :=
  match urls, oks with
  | url :: urls', ok :: oks' =>
      if ok then failed_of urls' oks' else url :: failed_of urls' oks'
  | _, _ => []
  end.

(** The report of lines 179-189 for a summary. *)
Definition report_lines (s : summary) : list string :=
  [ nl +:+ str_mul "=" 80; "批量提取音频完成!";
    "成功: " +:+ pretty (success_count s) +:+ " 个";
    "失败: " +:+ pretty (fail_count s) +:+ " 个" ] ++
  match failed_urls s with
  | [] => []
  | _ :: _ => (nl +:+ "失败的URL:") :: ((λ url, "  - " +:+ url) <$> failed_urls s)
  end ++
  [ str_mul "=" 80 ].

(** * Definitions used in the statements *)

(** [wp m h fs Q]: the run of [m] from history [h] and file system [fs]
    satisfies [Q].  The rules below walk through a program in the order
    it executes. *)
Definition wp {A} (m : M A) (h : list event) (fs : gmap string node)
    (Q : Run A → Prop) : Prop :=
  Q (m h fs).

(** The banner, lines 60-66. *)
Definition banner (u od f q : string) : list string :=
  [ nl +:+ str_mul "=" 60; "开始从视频提取音频"; "视频URL: " +:+ u; "输出目录: " +:+ od;
    "音频格式: " +:+ f; "音频质量: " +:+ q; str_mul "=" 60 ].

(** Lines 140-142. *)
Definition unknown_error_lines (e : exn) : list string :=
  [ nl +:+ str_mul "=" 60; "发生未知错误: " +:+ exn_str e; str_mul "=" 60 ].

(** What the fallback prints, given the answer to its command. *)
Definition command_lines (cmd : list string) (r : exn + string) : list string :=
  [ nl +:+ "yt-dlp模块导入失败，尝试使用命令行方式..."; "执行命令: " +:+ join " " cmd ] ++
  match r with
  | inr out => [ nl +:+ str_mul "=" 60; "提取音频成功!"; "输出: " +:+ out; str_mul "=" 60 ]
  | inl (CalledProcessError _ _ _ as e) =>
      [ nl +:+ str_mul "=" 60; "提取音频失败: " +:+ exn_str e; "错误输出: " +:+ exn_stderr e;
        str_mul "=" 60 ]
  | inl e => unknown_error_lines e
  end.

(** What the library path prints once the import succeeded, given the
    answer of [extract_info]. *)
Definition module_lines (od : string) (r : exn + gmap string string) : list string :=
  match r with
  | inr info =>
      [ nl +:+ str_mul "=" 60; "提取音频成功!"; "视频标题: " +:+ title_of info; "输出目录: " +:+ od;
        str_mul "=" 60 ]
  | inl _ => []
  end.

(** The sentence of the specification on successful extraction, as it is
    written: a successful downloader call yields success and a non-empty
    title. *)
Definition success_carries_title (R : Run bool) : Prop :=
  downloader_succeeded (calls R) = true →
  result R = Ret true ∧ ∃ t, t ∈ reported_titles (printed R) ∧ t ≠ "".

(** The sentence of the specification on the output directory, as it is
    written: whenever the downloader is reached the output path is a
    directory, and a failed creation yields a failure with its message. *)
Definition ensures_output_directory (w : World) (u od f q : string)
    (h : list event) (fs : gmap string node) : Prop :=
  let R := extract_audio w u od f q h fs in
  (extraction_attempted (calls R) = true → fs_after R !! od = Some Dir) ∧
  (∀ e, fs !! od = None → makedirs_fault w h od = Some e →
     result R = Ret false ∧ reported_errors (printed R) = [exn_str e]).

(** The sentence of the specification on the exit code, as it is written:
    the code is 1 exactly when the installation of the downloader fails,
    the [--file] path does not exist, the URL list is empty, the file
    cannot be read, or neither [--url] nor [--file] is given. *)
Definition exit_one_iff_listed (w : World) (args : Args) (h : list event)
    (fs : gmap string node) : Prop :=
  let D := install_dependencies w h fs in
  exit_code (result (main w args h fs)) = 1 ↔
    result D = Ret false ∨
    (∃ file, arg_file args = Some file ∧ fs !! file = None) ∨
    (∃ file lines, arg_file args = Some file ∧
       open_result w (h ++ calls D) file = inr lines ∧ read_urls lines = []) ∨
    (∃ file e, arg_file args = Some file ∧ open_result w (h ++ calls D) file = inl e) ∨
    (arg_url args = None ∧ arg_file args = None).


(** * Further observations on a run *)

(** The command lines handed to [subprocess.run]. *)
Definition event_command (ev : event) : option (list string) :=
  match ev with
  | EvRun cmd _ => Some cmd
  | _ => None
  end.

Definition commands (evs : list event) : list (list string) := omap event_command evs.

(** The answers of [subprocess.run]. *)
Definition event_answer (ev : event) : option (exn + string) :=
  match ev with
  | EvRun _ r => Some r
  | _ => None
  end.

Definition answers (evs : list event) : list (exn + string) := omap event_answer evs.

(** The exceptions raised by the calls into the downloader library: the
    import, the constructor, [extract_info] and [__exit__]. *)
Definition library_error (ev : event) : option exn :=
  match ev with
  | EvImport (Some e) => Some e
  | EvYoutubeDL _ (Some e) => Some e
  | EvExtractInfo _ _ (inl e) => Some e
  | EvClose (Some e) => Some e
  | _ => None
  end.

Definition library_errors (evs : list event) : list exn := omap library_error evs.

Definition is_ImportError (o : option exn) : bool :=
  match o with
  | Some (ImportError _) => true
  | _ => false
  end.

(** The answers of [os.makedirs]. *)
Definition event_makedirs (ev : event) : option (option exn) :=
  match ev with
  | EvMakedirs _ r => Some r
  | _ => None
  end.

Definition makedirs_answers (evs : list event) : list (option exn) := omap event_makedirs evs.

(** The calls of [extract_info]. *)
Definition event_download (ev : event) : option string :=
  match ev with
  | EvExtractInfo _ url _ => Some url
  | _ => None
  end.

Definition downloads (evs : list event) : list string := omap event_download evs.

(** The lines 101 and 124, which announce a success. *)
Definition success_message (line : string) : option unit :=
  match strip_prefix "提取音频成功!" line with
  | Some EmptyString => Some tt
  | _ => None
  end.

Definition success_messages (lines : list string) : list unit := omap success_message lines.

(** What lines 125 and 131 print of the fallback process. *)
Definition reported_stdout (lines : list string) : list string :=
  omap (strip_prefix "输出: ") lines.

Definition reported_stderr (lines : list string) : list string :=
  omap (strip_prefix "错误输出: ") lines.

(** The progress lines of the batch driver (line 169). *)
Definition progress (lines : list string) : list string :=
  omap (strip_prefix "处理第 ") lines.

(** The warning of line 22 and the confirmation of line 30. *)
Definition ffmpeg_notes (lines : list string) : list bool :=
  omap (λ line,
    match strip_prefix "ffmpeg 已安装" line with
    | Some EmptyString => Some true
    | _ =>
        match strip_prefix (nl +:+ "警告: ffmpeg 未安装") line with
        | Some EmptyString => Some false
        | _ => None
        end
    end) lines.

(** An external call of the extractor concerns the request it was given:
    its output directory, its options and URL, its command line. *)
Definition about_request (u od f q : string) (ev : event) : Prop :=
  match ev with
  | EvMakedirs path _ => path = od
  | EvImport _ => True
  | EvYoutubeDL opts _ => opts = make_ydl_opts od f q
  | EvExtractInfo opts url _ => opts = make_ydl_opts od f q ∧ url = u
  | EvClose _ => True
  | EvRun cmd _ => cmd = fallback_cmd u od f q
  | EvOpen _ _ => False
  end.

(** A line of ASCII white space only. *)
Fixpoint blank (s : string) : bool :=
  match s with
  | EmptyString => true
  | String a s' => space1 a && blank s'
  end.

Definition first_char (s : string) : option ascii :=
  match s with
  | String a _ => Some a
  | EmptyString => None
  end.

Definition last_char (s : string) : option ascii := first_char (String.rev s).

(** * Runs of a batch, and what the statements on failures use *)




(** The runs of the extractor on the requests of a batch, in order: each
    starts in the history and the file system the previous one left. *)
Fixpoint item_runs (w : World) (od f q : string) (urls : list string)
    (h : list event) (fs : gmap string node) : list (Run bool) :=
  match urls with
  | [] => []
  | url :: rest =>
      let r := extract_audio w url od f q h fs in
      r :: match result r with
           | Ret _ => item_runs w od f q rest (h ++ calls r) (fs_after r)
           | _ => []
           end
  end.

(** Lines 155-161: the header of a batch. *)
Definition batch_header (urls : list string) (od f q : string) : list string :=
  [ nl +:+ str_mul "=" 80; "开始批量提取音频"; "总视频数: " +:+ pretty (length urls);
    "输出目录: " +:+ od; "音频格式: " +:+ f; "音频质量: " +:+ q; str_mul "=" 80 ].

(** Lines 168-171: what the driver prints when it takes up request [i]. *)
Definition item_lines (total i : nat) (url : string) : list string :=
  [ nl +:+ str_mul "-" 80;
    "处理第 " +:+ pretty i +:+ "/" +:+ pretty total +:+ " 个视频";
    "URL: " +:+ url;
    str_mul "-" 80 ].

(** What the loop prints: for each request the lines of the driver, then
    everything its run of the extractor prints. *)
Fixpoint loop_lines (total i : nat) (urls : list string) (runs : list (Run bool))
    : list string :=
  match urls, runs with
  | url :: urls', r :: runs' =>
      item_lines total i url ++ printed r ++ loop_lines total (S i) urls' runs'
  | _, _ => []
  end.

(** * Reasoning about runs *)

Lemma wp_bind {A B} (m : M A) (k : A → M B) h fs (Q : Run B → Prop) :
  wp m h fs (λ r1,
    match result r1 with
    | Ret a => wp (k a) (h ++ calls r1) (fs_after r1) (λ r2,
        Q (mkRun (result r2) (fs_after r2) (calls r1 ++ calls r2) (printed r1 ++ printed r2)))
    | Raise e => Q (mkRun (Raise e) (fs_after r1) (calls r1) (printed r1))
    | Exit c => Q (mkRun (Exit c) (fs_after r1) (calls r1) (printed r1))
    end) →
  wp (bind m k) h fs Q.
Proof.
  unfold wp, bind. destruct (m h fs) as [[a|e|c] fs1 c1 p1]; cbn; try done.
  by destruct (k a (h ++ c1) fs1).
Qed.

Lemma wp_try_except {A} (body : M A) handlers h fs (Q : Run A → Prop) :
  wp body h fs (λ r1,
    match result r1 with
    | Raise e =>
        match handlers e with
        | Some hd => wp hd (h ++ calls r1) (fs_after r1) (λ r2,
            Q (mkRun (result r2) (fs_after r2) (calls r1 ++ calls r2) (printed r1 ++ printed r2)))
        | None => Q (mkRun (Raise e) (fs_after r1) (calls r1) (printed r1))
        end
    | Ret a => Q (mkRun (Ret a) (fs_after r1) (calls r1) (printed r1))
    | Exit c => Q (mkRun (Exit c) (fs_after r1) (calls r1) (printed r1))
    end) →
  wp (try_except body handlers) h fs Q.
Proof.
  unfold wp, try_except. destruct (body h fs) as [[a|e|c] fs1 c1 p1]; cbn; try done.
  destruct (handlers e) as [hd|]; [|done]. by destruct (hd (h ++ c1) fs1).
Qed.

Lemma wp_with_YoutubeDL {A} w opts (body : M A) h fs (Q : Run A → Prop) :
  match YoutubeDL_result w h opts with
  | Some e => Q (mkRun (Raise e) fs [EvYoutubeDL opts (Some e)] [])
  | None =>
      wp body (h ++ [EvYoutubeDL opts None]) fs (λ r1,
        match close_result w ((h ++ [EvYoutubeDL opts None]) ++ calls r1) with
        | Some e =>
            Q (mkRun (Raise e) (fs_after r1)
                 (EvYoutubeDL opts None :: calls r1 ++ [EvClose (Some e)]) (printed r1))
        | None =>
            Q (mkRun (result r1) (fs_after r1)
                 (EvYoutubeDL opts None :: calls r1 ++ [EvClose None]) (printed r1))
        end)
  end →
  wp (with_YoutubeDL w opts body) h fs Q.
Proof.
  unfold wp, with_YoutubeDL. destruct (YoutubeDL_result w h opts); [done|].
  destruct (body _ fs) as [o fs1 c1 p1]; cbn. by destruct (close_result w _).
Qed.

Lemma wp_ret {A} (a : A) h fs (Q : Run A → Prop) :
  Q (mkRun (Ret a) fs [] []) → wp (ret a) h fs Q.
Proof. done. Qed.

Lemma wp_sys_exit {A} c h fs (Q : Run A → Prop) :
  Q (mkRun (Exit c) fs [] []) → wp (sys_exit c) h fs Q.
Proof. done. Qed.

Lemma wp_print s h fs (Q : Run unit → Prop) :
  Q (mkRun (Ret tt) fs [] [s]) → wp (print s) h fs Q.
Proof. done. Qed.

Lemma wp_subprocess_run w cmd h fs (Q : Run string → Prop) :
  match run_result w h cmd with
  | inl e => Q (mkRun (Raise e) fs [EvRun cmd (inl e)] [])
  | inr out => Q (mkRun (Ret out) fs [EvRun cmd (inr out)] [])
  end →
  wp (subprocess_run w cmd) h fs Q.
Proof. unfold wp, subprocess_run. by destruct (run_result w h cmd). Qed.

Lemma wp_os_path_exists path h fs (Q : Run bool → Prop) :
  match fs !! path with
  | Some _ => Q (mkRun (Ret true) fs [] [])
  | None => Q (mkRun (Ret false) fs [] [])
  end →
  wp (os_path_exists path) h fs Q.
Proof. unfold wp, os_path_exists. by destruct (fs !! path). Qed.

Lemma wp_os_makedirs w path h fs (Q : Run unit → Prop) :
  match fs !! path with
  | Some Dir => Q (mkRun (Ret tt) fs [EvMakedirs path None] [])
  | Some File =>
      Q (mkRun (Raise (OSError ("[Errno 17] File exists: '" +:+ path +:+ "'"))) fs
           [EvMakedirs path (Some (OSError ("[Errno 17] File exists: '" +:+ path +:+ "'")))] [])
  | None =>
      match makedirs_fault w h path with
      | Some e => Q (mkRun (Raise e) fs [EvMakedirs path (Some e)] [])
      | None => Q (mkRun (Ret tt) (<[path := Dir]> fs) [EvMakedirs path None] [])
      end
  end →
  wp (os_makedirs w path) h fs Q.
Proof.
  unfold wp, os_makedirs. destruct (fs !! path) as [[]|]; try done.
  by destruct (makedirs_fault w h path).
Qed.

Lemma wp_import_yt_dlp w h fs (Q : Run unit → Prop) :
  match import_result w h with
  | Some e => Q (mkRun (Raise e) fs [EvImport (Some e)] [])
  | None => Q (mkRun (Ret tt) fs [EvImport None] [])
  end →
  wp (import_yt_dlp w) h fs Q.
Proof. unfold wp, import_yt_dlp. by destruct (import_result w h). Qed.

Lemma wp_extract_info w opts url h fs (Q : Run (gmap string string) → Prop) :
  match extract_info_result w h opts url with
  | inl e => Q (mkRun (Raise e) fs [EvExtractInfo opts url (inl e)] [])
  | inr info => Q (mkRun (Ret info) fs [EvExtractInfo opts url (inr info)] [])
  end →
  wp (extract_info w opts url) h fs Q.
Proof. unfold wp, extract_info. by destruct (extract_info_result w h opts url). Qed.

Lemma wp_open_lines w path h fs (Q : Run (list string) → Prop) :
  match open_result w h path with
  | inl e => Q (mkRun (Raise e) fs [EvOpen path (inl e)] [])
  | inr lines => Q (mkRun (Ret lines) fs [EvOpen path (inr lines)] [])
  end →
  wp (open_lines w path) h fs Q.
Proof. unfold wp, open_lines. by destruct (open_result w h path). Qed.

(** A fact already known about a sub-program is used as it is. *)
Lemma wp_use {A} (m : M A) h fs (Q : Run A → Prop) :
  (∀ r, r = m h fs → Q r) → wp m h fs Q.
Proof. intros H. by apply H. Qed.

Ltac wp_simpl :=
  cbn beta iota zeta delta [result fs_after calls printed app negb];
  rewrite ?app_nil_r.

Ltac wp_step :=
  lazymatch goal with
  | |- wp (bind _ _) _ _ _ => apply wp_bind
  | |- wp (try_except _ _) _ _ _ => apply wp_try_except
  | |- wp (with_YoutubeDL _ _ _) _ _ _ => apply wp_with_YoutubeDL
  | |- wp (print _) _ _ _ => apply wp_print
  | |- wp (ret _) _ _ _ => apply wp_ret
  | |- wp (sys_exit _) _ _ _ => apply wp_sys_exit
  | |- wp (subprocess_run _ _) _ _ _ => apply wp_subprocess_run
  | |- wp (os_path_exists _) _ _ _ => apply wp_os_path_exists
  | |- wp (os_makedirs _ _) _ _ _ => apply wp_os_makedirs
  | |- wp (import_yt_dlp _) _ _ _ => apply wp_import_yt_dlp
  | |- wp (extract_info _ _ _) _ _ _ => apply wp_extract_info
  | |- wp (open_lines _ _) _ _ _ => apply wp_open_lines
  | |- wp (match ?x with _ => _ end) _ _ _ => destruct x eqn:?
  | |- wp (if ?x then _ else _) _ _ _ => destruct x eqn:?
  | |- match ?x with _ => _ end =>
      lazymatch x with
      | match ?y with _ => _ end => destruct y
      | _ => destruct x eqn:?
      end
  end; wp_simpl.

Ltac wp_run := repeat wp_step.

(** * The single-item extractor, stage by stage *)

Ltac obs_simpl :=
  cbv beta iota zeta delta [invocations batch_items probe_launched reported_titles reported_errors error_text errors infos
    opened_files downloader_succeeded import_failed extraction_attempted event_error event_info event_open
    omap list_omap existsb orb andb last fmap list_fmap option_list
    strip_prefix String.append Ascii.eqb Bool.eqb nl str_mul].

(** Replaces the questions to the environment by the answers assumed. *)
Ltac rewrite_answers :=
  repeat match goal with
         | H : ?x = _ |- context [?x] => rewrite H
         end.

(** Proves [m h fs = r] by running [m]. *)
Ltac wp_eq :=
  lazymatch goal with
  | |- ?m ?h ?fs = ?r => change (wp m h fs (λ R, R = r))
  end.

Section Stages.

Variable w : World.
Variables (u od f q : string).

Lemma ensure_output_dir_eq h fs :
  ensure_output_dir w od h fs =
  match fs !! od with
  | Some _ => mkRun (Ret None) fs [] []
  | None =>
      match makedirs_fault w h od with
      | Some e =>
          mkRun (Ret (Some false)) fs [EvMakedirs od (Some e)]
            ["创建输出目录失败: " +:+ exn_str e]
      | None =>
          mkRun (Ret None) (<[od := Dir]> fs) [EvMakedirs od None] ["创建输出目录: " +:+ od]
      end
  end.
Proof.
  wp_eq. unfold ensure_output_dir. wp_run; try congruence; rewrite_answers; reflexivity.
Qed.

Lemma extract_with_command_eq h fs :
  extract_with_command w u od f q h fs =
  let cmd := fallback_cmd u od f q in
  let r := run_result w h cmd in
  mkRun (Ret (match r with inr _ => true | inl _ => false end)) fs [EvRun cmd r]
    (command_lines cmd r).
Proof.
  wp_eq. unfold extract_with_command. wp_run; reflexivity.
Qed.

Lemma extract_with_module_eq h fs :
  extract_with_module w u od f q h fs =
  let opts := make_ydl_opts od f q in
  match import_result w h with
  | Some e => mkRun (Raise e) fs [EvImport (Some e)] []
  | None =>
      match YoutubeDL_result w (h ++ [EvImport None]) opts with
      | Some e =>
          mkRun (Raise e) fs [EvImport None; EvYoutubeDL opts (Some e)]
            [nl +:+ "使用yt-dlp模块提取音频"]
      | None =>
          let ri := extract_info_result w (h ++ [EvImport None; EvYoutubeDL opts None]) opts u in
          let rc := close_result w
                      (h ++ [EvImport None; EvYoutubeDL opts None; EvExtractInfo opts u ri]) in
          mkRun (match rc with
                 | Some e => Raise e
                 | None => match ri with inl e => Raise e | inr _ => Ret true end
                 end)
                fs
                [EvImport None; EvYoutubeDL opts None; EvExtractInfo opts u ri; EvClose rc]
                ((nl +:+ "使用yt-dlp模块提取音频") :: module_lines od ri)
      end
  end.
Proof.
  wp_eq. unfold extract_with_module. wp_run.
  all: rewrite <- ?app_assoc in *; cbn [app] in *.
  all: rewrite_answers; reflexivity.
Qed.

End Stages.

Section Extractor.

Variable w : World.
Variables (u od f q : string) (h : list event) (fs : gmap string node).

(** [extract_audio] as the composition of its stages. *)
Lemma extract_audio_eq :
  extract_audio w u od f q h fs =
  let d := ensure_output_dir w od h fs in
  match result d with
  | Ret (Some b) => mkRun (Ret b) (fs_after d) (calls d) (banner u od f q ++ printed d)
  | Ret None =>
      let m := extract_with_module w u od f q (h ++ calls d) (fs_after d) in
      match result m with
      | Raise (ImportError _) =>
          let c := extract_with_command w u od f q ((h ++ calls d) ++ calls m) (fs_after m) in
          mkRun (result c) (fs_after c) (calls d ++ calls m ++ calls c)
            (banner u od f q ++ printed d ++ printed m ++ printed c)
      | Raise e =>
          mkRun (Ret false) (fs_after m) (calls d ++ calls m)
            (banner u od f q ++ printed d ++ printed m ++ unknown_error_lines e)
      | o => mkRun o (fs_after m) (calls d ++ calls m) (banner u od f q ++ printed d ++ printed m)
      end
  | Raise e => mkRun (Raise e) (fs_after d) (calls d) (banner u od f q ++ printed d)
  | Exit c => mkRun (Exit c) (fs_after d) (calls d) (banner u od f q ++ printed d)
  end.
Proof.
  wp_eq. unfold extract_audio.
  do 14 wp_step.
  apply wp_bind, wp_use. intros d ->.
  destruct (ensure_output_dir w od h fs) as [[[b|]|e|c] fs1 c1 p1]; wp_simpl; try done.
  { by wp_run. }
  apply wp_try_except, wp_use. intros m ->.
  destruct (extract_with_module w u od f q (h ++ c1) fs1) as [[b|e|c] fs2 c2 p2];
    wp_simpl; try done.
  destruct e; wp_simpl.
  1: apply wp_use; intros c ->;
     by destruct (extract_with_command w u od f q ((h ++ c1) ++ c2) fs2).
  all: wp_run; by rewrite <- ?app_assoc.
Qed.

End Extractor.

(** Every path through [extract_audio]: one goal per combination of
    answers of the environment, with the run written out. *)
Ltac run_simpl :=
  cbv beta iota zeta delta [result fs_after calls printed banner unknown_error_lines
    command_lines module_lines];
  cbn [app].

Ltac run_cases :=
  run_simpl;
  repeat (match goal with
          | |- context [match ?x with _ => _ end] =>
              lazymatch x with
              | context [match _ with _ => _ end] => fail
              | _ => destruct x eqn:?
              end
          end;
          run_simpl).

Ltac extract_audio_cases P R :=
  change (P R);
  rewrite extract_audio_eq; cbv zeta;
  rewrite ensure_output_dir_eq, ?extract_with_module_eq; cbv zeta;
  rewrite ?extract_with_command_eq; cbv zeta;
  run_cases;
  subst P; cbv beta; run_simpl; obs_simpl.

Section ExtractorRuns.

Variable w : World.
Variables (u od f q : string) (h : list event) (fs : gmap string node).

Let R := extract_audio w u od f q h fs.

(** What every run of the extractor satisfies: it returns, and its value
    tells whether the downloader call succeeded; its banner is printed
    once, with the URL of the request, and nothing that looks like an
    announcement of the batch driver; it opens no file; it prints one
    title per info returned by the library; a failing run prints the text
    of the last exception raised, and nothing else as an error; and when
    the import of the library raises [ImportError], the last external call
    is the fallback command. *)
Lemma extract_audio_run :
  result R = Ret (downloader_succeeded (calls R)) ∧
  invocations (printed R) = [u] ∧
  batch_items (printed R) = [] ∧
  opened_files (calls R) = [] ∧
  reported_titles (printed R) = title_of <$> infos (calls R) ∧
  (downloader_succeeded (calls R) = false →
     ∃ e, last (errors (calls R)) = Some e ∧ reported_errors (printed R) = [exn_str e]) ∧
  (import_failed (calls R) = true →
     ∃ r, last (calls R) = Some (EvRun (fallback_cmd u od f q) r)).
Proof.
  pose (P := λ R : Run bool,
    result R = Ret (downloader_succeeded (calls R)) ∧
    invocations (printed R) = [u] ∧
    batch_items (printed R) = [] ∧
    opened_files (calls R) = [] ∧
    reported_titles (printed R) = title_of <$> infos (calls R) ∧
    (downloader_succeeded (calls R) = false →
       ∃ e, last (errors (calls R)) = Some e ∧ reported_errors (printed R) = [exn_str e]) ∧
    (import_failed (calls R) = true →
       ∃ r, last (calls R) = Some (EvRun (fallback_cmd u od f q) r))).
  subst R. extract_audio_cases P (extract_audio w u od f q h fs).
  all: split; [reflexivity|]; split; [reflexivity|]; split; [reflexivity|];
       split; [reflexivity|]; split; [reflexivity|];
       split; intros; try discriminate; eauto.
Qed.

Lemma title_of_nonempty (info : gmap string string) :
  info !! "title" ≠ Some "" → title_of info ≠ "".
Proof.
  unfold title_of. destruct (info !! "title") as [t|]; cbn; [congruence|discriminate].
Qed.


End ExtractorRuns.

(** * Claims about the single-item extractor *)

Section ExtractorClaims.

Variable w : World.
Variables (u od f q : string) (h : list event) (fs : gmap string node).

Let R := extract_audio w u od f q h fs.

(** C1, as amended.  When the downloader call succeeds, [extract_audio]
    returns [True].  The titles it prints are those of the infos returned
    by the in-process library, each the info's ['title'] entry or '未知'
    when there is none: such a title is non-empty unless the library
    reports an empty one, and no title is printed when the library
    returned no info (the external-process fallback). *)
Theorem extract_audio_success :
  downloader_succeeded (calls R) = true →
  result R = Ret true ∧
  reported_titles (printed R) = title_of <$> infos (calls R) ∧
  (∀ info, info !! "title" ≠ Some "" → title_of info ≠ "") ∧
  (infos (calls R) = [] → reported_titles (printed R) = []).
Proof.
  intros Hok. destruct (extract_audio_run w u od f q h fs) as (Hres & _ & _ & _ & Ht & _).
  fold R in Hres, Ht. rewrite Hres, Hok, Ht. repeat split.
  - apply title_of_nonempty.
  - by intros ->.
Qed.


(** C7, as amended.  When nothing exists at the output path,
    [os.makedirs] is the first external call; if it succeeds the path is
    a directory before the downloader is reached, and if it raises the
    extractor returns [False] at once, having printed a non-empty message
    with the error text.  When something exists at the path already,
    whether a directory or not, nothing is created and the downloader is
    reached with the file system unchanged. *)
Theorem extract_audio_output_dir :
  match fs !! od with
  | Some _ =>
      fs_after R = fs ∧ ∃ r rest, calls R = EvImport r :: rest
  | None =>
      match makedirs_fault w h od with
      | None =>
          fs_after R = <[od := Dir]> fs ∧
          fs_after R !! od = Some Dir ∧
          ∃ r rest, calls R = EvMakedirs od None :: EvImport r :: rest
      | Some e =>
          result R = Ret false ∧
          fs_after R = fs ∧
          calls R = [EvMakedirs od (Some e)] ∧
          printed R = banner u od f q ++ ["创建输出目录失败: " +:+ exn_str e] ∧
          nonempty ("创建输出目录失败: " +:+ exn_str e) = true
      end
  end.
Proof.
  pose (P := λ R : Run bool,
    match fs !! od with
    | Some _ =>
        fs_after R = fs ∧ ∃ r rest, calls R = EvImport r :: rest
    | None =>
        match makedirs_fault w h od with
        | None =>
            fs_after R = <[od := Dir]> fs ∧
            fs_after R !! od = Some Dir ∧
            ∃ r rest, calls R = EvMakedirs od None :: EvImport r :: rest
        | Some e =>
            result R = Ret false ∧
            fs_after R = fs ∧
            calls R = [EvMakedirs od (Some e)] ∧
            printed R = banner u od f q ++ ["创建输出目录失败: " +:+ exn_str e] ∧
            nonempty ("创建输出目录失败: " +:+ exn_str e) = true
        end
    end).
  subst R. extract_audio_cases P (extract_audio w u od f q h fs).
  all: rewrite_answers; rewrite ?lookup_insert_eq; repeat split; eauto.
Qed.

(** C9.  When [import yt_dlp] raises [ImportError], the last external
    call of the extractor is [subprocess.run] on the downloader's command
    line, with [-x], [--audio-format] and the format, [--audio-quality]
    and the quality, [-o] and the output template, and the URL. *)
Theorem extract_audio_fallback :
  import_failed (calls R) = true →
  ∃ r, last (calls R) =
       Some (EvRun [ "python3"; "-m"; "yt_dlp"; "-x";
                     "--audio-format"; f; "--audio-quality"; q;
                     "-o"; od +:+ "/%(title)s.%(ext)s"; u ] r).
Proof.
  destruct (extract_audio_run w u od f q h fs) as (_ & _ & _ & _ & _ & _ & Hfb).
  exact Hfb.
Qed.

(** C8.  Directory creation is idempotent: once [os.makedirs] with
    [exist_ok=True] has succeeded on a path, a second call succeeds; and
    once the directory stage of the extractor (lines 69-71) has
    succeeded, a second run of it succeeds without calling [os.makedirs]
    at all.  Neither second call changes the file system. *)
Theorem directory_creation_idempotent (h' : list event) :
  (result (os_makedirs w od h fs) = Ret tt →
   os_makedirs w od h' (fs_after (os_makedirs w od h fs)) =
   mkRun (Ret tt) (fs_after (os_makedirs w od h fs)) [EvMakedirs od None] []) ∧
  (result (ensure_output_dir w od h fs) = Ret None →
   ensure_output_dir w od h' (fs_after (ensure_output_dir w od h fs)) =
   mkRun (Ret None) (fs_after (ensure_output_dir w od h fs)) [] []).
Proof.
  split.
  - unfold os_makedirs. destruct (fs !! od) as [[]|] eqn:Hfs; cbn.
    + by rewrite Hfs.
    + discriminate.
    + destruct (makedirs_fault w h od); cbn; [discriminate|].
      by rewrite lookup_insert_eq.
  - rewrite !ensure_output_dir_eq. destruct (fs !! od) as [n|] eqn:Hfs; cbn.
    + by rewrite Hfs.
    + destruct (makedirs_fault w h od); cbn; [discriminate|].
      by rewrite lookup_insert_eq.
Qed.

End ExtractorClaims.

(** C1, as the specification states it, fails when the library cannot be
    imported and the fallback command succeeds: the extractor returns
    [True] and prints no title at all. *)
Lemma success_carries_title_fails :
  ¬ success_carries_title
      (extract_audio no_module_world "https://example.com/v1" "audio" "mp3" "128k" [] ∅).
Proof.
  intros H. destruct H as [_ (t & Ht & _)]; [by vm_compute|].
  vm_compute in Ht. by apply elem_of_nil in Ht.
Qed.


(** An empty title reported by the library is printed as it is. *)
Example empty_title_is_reported :
  let w := {| run_result := λ _ _, inr "";
              makedirs_fault := λ _ _, None;
              import_result := λ _, None;
              YoutubeDL_result := λ _ _, None;
              extract_info_result := λ _ _ _, inr {[ "title" := "" ]};
              close_result := λ _, None;
              open_result := λ _ _, inr [] |} in
  let R := extract_audio w "https://example.com/v1" "audio" "mp3" "128k" [] ∅ in
  result R = Ret true ∧ reported_titles (printed R) = [""].
Proof. by vm_compute. Qed.

Lemma extract_audio_success_witness :
  let R := extract_audio working_world "https://example.com/v1" "audio" "mp3" "128k" [] ∅ in
  downloader_succeeded (calls R) = true ∧
  result R = Ret true ∧
  reported_titles (printed R) = ["Song"].
Proof.
  cbv zeta.
  pose proof (extract_audio_success working_world "https://example.com/v1" "audio" "mp3" "128k"
                [] ∅ eq_refl) as (Hres & Ht & _).
  split; [reflexivity|]. split; [exact Hres|]. rewrite Ht. reflexivity.
Defined.

(** C7, as the specification states it, fails when the output path
    exists and is a regular file: nothing is created, and the downloader
    is reached although the path is no directory. *)
Lemma ensures_output_directory_fails :
  ¬ ensures_output_directory working_world "https://example.com/v1" "audio" "mp3" "128k"
      [] {[ "audio" := File ]}.
Proof.
  intros [H _]. assert (Hd := H eq_refl). vm_compute in Hd. discriminate.
Qed.

(** An output directory that cannot be created: the item fails with the
    message of the error, and the downloader is not touched. *)
Example unwritable_output_dir :
  let R := extract_audio readonly_world "https://example.com/v1" "audio" "mp3" "128k" [] ∅ in
  result R = Ret false ∧
  calls R = [EvMakedirs "audio" (Some (OSError "[Errno 13] Permission denied: 'audio'"))] ∧
  reported_errors (printed R) = ["[Errno 13] Permission denied: 'audio'"] ∧
  extraction_attempted (calls R) = false.
Proof. by vm_compute. Qed.

Lemma extract_audio_fallback_witness :
  let R := extract_audio no_module_world "https://example.com/v1" "audio" "mp3" "128k" [] ∅ in
  import_failed (calls R) = true ∧
  ∃ r, last (calls R) =
       Some (EvRun [ "python3"; "-m"; "yt_dlp"; "-x";
                     "--audio-format"; "mp3"; "--audio-quality"; "128k";
                     "-o"; "audio/%(title)s.%(ext)s"; "https://example.com/v1" ] r).
Proof.
  cbv zeta. split; [reflexivity|].
  apply (extract_audio_fallback no_module_world "https://example.com/v1" "audio" "mp3" "128k"
           [] ∅).
  reflexivity.
Defined.

Lemma directory_creation_idempotent_witness :
  result (os_makedirs working_world "audio" [] ∅) = Ret tt ∧
  result (ensure_output_dir working_world "audio" [] ∅) = Ret None ∧
  result (os_makedirs working_world "audio" [] (<["audio" := Dir]> ∅)) = Ret tt ∧
  result (ensure_output_dir working_world "audio" [] (<["audio" := Dir]> ∅)) = Ret None.
Proof.
  destruct (directory_creation_idempotent working_world "audio" [] ∅ []) as [H1 H2].
  split; [reflexivity|]. split; [reflexivity|].
  split.
  - exact (f_equal result (H1 eq_refl)).
  - exact (f_equal result (H2 eq_refl)).
Defined.

(** * The dependency checker *)

Section Dependencies.

Variable w : World.
Variables (h : list event) (fs : gmap string node).

Let D := install_dependencies w h fs.

(** The checker hands on the map of paths as it got it (it calls no
    [os.makedirs]; what [pip3 install] writes is not tracked), opens no
    file and prints nothing that looks like the banner of the extractor. *)
Lemma install_dependencies_frame :
  fs_after D = fs ∧ opened_files (calls D) = [] ∧ invocations (printed D) = [].
Proof.
  pose (P := λ R : Run bool,
    fs_after R = fs ∧ opened_files (calls R) = [] ∧ invocations (printed R) = []).
  change (wp (install_dependencies w) h fs P).
  unfold install_dependencies, check_ffmpeg. wp_run.
  all: subst P; obs_simpl; done.
Qed.

(** X20.  When both probes can be launched, the checker returns, and it
    returns [False] exactly when [pip3 show] exits with a nonzero status
    and the one installation attempt raises. *)
Lemma install_dependencies_result :
  let rw := run_result w h ["which"; "ffmpeg"] in
  let rs := run_result w (h ++ [EvRun ["which"; "ffmpeg"] rw]) ["pip3"; "show"; "yt-dlp"] in
  let ri := run_result w (h ++ [EvRun ["which"; "ffmpeg"] rw; EvRun ["pip3"; "show"; "yt-dlp"] rs])
              ["pip3"; "install"; "yt-dlp"] in
  probe_launched rw = true →
  probe_launched rs = true →
  result D = Ret (match rs with
                  | inr _ => true
                  | inl _ => match ri with inr _ => true | inl _ => false end
                  end).
Proof.
  pose (P := λ R : Run bool,
    let rw := run_result w h ["which"; "ffmpeg"] in
    let rs := run_result w (h ++ [EvRun ["which"; "ffmpeg"] rw]) ["pip3"; "show"; "yt-dlp"] in
    let ri := run_result w (h ++ [EvRun ["which"; "ffmpeg"] rw; EvRun ["pip3"; "show"; "yt-dlp"] rs])
                ["pip3"; "install"; "yt-dlp"] in
    probe_launched rw = true →
    probe_launched rs = true →
    result R = Ret (match rs with
                    | inr _ => true
                    | inl _ => match ri with inr _ => true | inl _ => false end
                    end)).
  change (wp (install_dependencies w) h fs P).
  unfold install_dependencies, check_ffmpeg. wp_run.
  all: subst P; cbv beta zeta; rewrite <- ?app_assoc in *; cbn [app] in *.
  all: rewrite_answers; cbn; intros; try discriminate; reflexivity.
Qed.

(** The checker never calls [sys.exit]. *)
Lemma install_dependencies_no_exit c :
  result D ≠ Exit c.
Proof.
  pose (P := λ R : Run bool, result R ≠ Exit c).
  change (wp (install_dependencies w) h fs P).
  unfold install_dependencies, check_ffmpeg. wp_run.
  all: subst P; cbn; discriminate.
Qed.

End Dependencies.

(** C6 fails on the code where [which] cannot be launched: the exception
    of [subprocess.run] is no [CalledProcessError], so [check_ffmpeg] does
    not catch it and [install_dependencies] raises instead of returning;
    the interpreter then ends with status 1. *)
Theorem install_dependencies_raises_without_which :
  result (install_dependencies no_which_world [] ∅) =
    Raise (OSError "[Errno 2] No such file or directory: 'which'") ∧
  exit_code (result (main no_which_world
                       (mkArgs (Some "https://example.com/v1") None "audio" "mp3" "128k")
                       [] ∅)) = 1.
Proof. by vm_compute. Qed.

(** * The batch driver *)

Lemma failed_of_length urls oks :
  (length (failed_of urls oks) ≤ length urls)%nat.
Proof.
  revert oks. induction urls as [|url urls IH]; intros [|[] oks]; cbn; try lia.
  - specialize (IH oks). lia.
  - specialize (IH oks). lia.
Qed.

Lemma failed_of_count urls oks :
  length oks = length urls →
  length (failed_of urls oks) = length (filter (λ ok, ok = false) oks).
Proof.
  revert oks. induction urls as [|url urls IH]; intros [|ok oks] Hlen; try done.
  injection Hlen as Hlen. destruct ok; cbn [failed_of].
  - rewrite filter_cons_False by done. by apply IH.
  - rewrite filter_cons_True by done. cbn [length]. f_equal. by apply IH.
Qed.

Lemma failed_of_sublist urls oks :
  sublist (failed_of urls oks) urls.
Proof.
  revert oks. induction urls as [|url urls IH]; intros [|[] oks]; cbn;
    try apply sublist_nil_l.
  - by apply sublist_cons.
  - by apply sublist_skip.
Qed.

Lemma invocations_app l1 l2 :
  invocations (l1 ++ l2) = invocations l1 ++ invocations l2.
Proof. apply omap_app. Qed.

Lemma batch_items_app l1 l2 :
  batch_items (l1 ++ l2) = batch_items l1 ++ batch_items l2.
Proof. apply omap_app. Qed.

Lemma opened_files_app l1 l2 :
  opened_files (l1 ++ l2) = opened_files l1 ++ opened_files l2.
Proof. apply omap_app. Qed.

Lemma invocations_skip x l :
  strip_prefix "视频URL: " x = None → invocations (x :: l) = invocations l.
Proof. unfold invocations. cbn [omap list_omap]. by intros ->. Qed.

Lemma batch_items_skip x l :
  strip_prefix "URL: " x = None → batch_items (x :: l) = batch_items l.
Proof. unfold batch_items. cbn [omap list_omap]. by intros ->. Qed.

Lemma batch_items_keep url l :
  batch_items (("URL: " +:+ url) :: l) = url :: batch_items l.
Proof. reflexivity. Qed.

Lemma steps_app l1 l2 :
  steps (l1 ++ l2) = steps l1 ++ steps l2.
Proof. apply omap_app. Qed.

Lemma steps_skip x l :
  step_of x = None → steps (x :: l) = steps l.
Proof. unfold steps. cbn [omap list_omap]. by intros ->. Qed.

Lemma steps_keep url l :
  steps (("URL: " +:+ url) :: l) = inl url :: steps l.
Proof. reflexivity. Qed.

(** Lines that announce no request of the driver announce what the
    extractor announces. *)
Lemma steps_invocations l :
  batch_items l = [] → steps l = inr <$> invocations l.
Proof.
  induction l as [|x l IH]; [done|]. intros H.
  change (batch_items (x :: l))
    with (match strip_prefix "URL: " x with
          | Some u => u :: batch_items l
          | None => batch_items l
          end) in H.
  change (steps (x :: l))
    with (match step_of x with Some s => s :: steps l | None => steps l end).
  change (invocations (x :: l))
    with (match strip_prefix "视频URL: " x with
          | Some u => u :: invocations l
          | None => invocations l
          end).
  unfold step_of. destruct (strip_prefix "URL: " x); [done|].
  destruct (strip_prefix "视频URL: " x); cbn [fmap list_fmap]; by rewrite IH.
Qed.

Lemma steps_nothing l :
  batch_items l = [] → invocations l = [] → steps l = [].
Proof. intros H1 H2. by rewrite steps_invocations, H2. Qed.

(** The lines [  - url] of the report are no announcements. *)
Lemma invocations_failed_lines (l : list string) :
  invocations ((λ url, "  - " +:+ url) <$> l) = [] ∧
  batch_items ((λ url, "  - " +:+ url) <$> l) = [].
Proof. induction l as [|x l [IH1 IH2]]; [done|]. split; [exact IH1|exact IH2]. Qed.

Lemma report_lines_announce_nothing s :
  invocations (report_lines s) = [] ∧ batch_items (report_lines s) = [].
Proof.
  unfold report_lines.
  rewrite !invocations_app, !batch_items_app.
  destruct (failed_urls s) as [|x l]; [done|].
  destruct (invocations_failed_lines (x :: l)) as [H1 H2].
  split.
  - change (invocations ((nl +:+ "失败的URL:") :: ((λ url, "  - " +:+ url) <$> x :: l)))
      with (invocations ((λ url, "  - " +:+ url) <$> x :: l)).
    by rewrite H1.
  - change (batch_items ((nl +:+ "失败的URL:") :: ((λ url, "  - " +:+ url) <$> x :: l)))
      with (batch_items ((λ url, "  - " +:+ url) <$> x :: l)).
    by rewrite H2.
Qed.

Section Batch.

Variable w : World.
Variables (total : nat) (od f q : string).

Lemma for_each_print (g : string → string) (l : list string) h fs :
  for_each l (λ x, print (g x)) h fs = mkRun (Ret tt) fs [] (g <$> l).
Proof.
  revert h. induction l as [|x l IH]; intros h; [done|].
  cbn [for_each]. unfold bind at 1. cbn. by rewrite IH.
Qed.

Lemma batch_report_eq s h fs :
  batch_report s h fs = mkRun (Ret tt) fs [] (report_lines s).
Proof.
  wp_eq. unfold batch_report. do 8 wp_step.
  apply wp_bind.
  destruct (failed_urls s) as [|x l] eqn:Hs.
  - wp_run. unfold report_lines. by rewrite Hs.
  - apply wp_bind. wp_step. wp_simpl. apply wp_use. intros r ->.
    rewrite for_each_print. wp_simpl. wp_run.
    unfold report_lines. by rewrite Hs.
Qed.

(** The loop: every request gets its outcome, the counters count the
    outcomes, and the extractor is announced once per request, in order. *)
Lemma batch_loop_run urls : ∀ i s h fs,
  let R := batch_loop w total od f q i urls s h fs in
  let oks := item_results w od f q urls h fs in
  let failed := failed_of urls oks in
  length oks = length urls ∧
  result R = Ret {| success_count := (success_count s + (length urls - length failed))%nat;
                    fail_count := (fail_count s + length failed)%nat;
                    failed_urls := failed_urls s ++ failed |} ∧
  invocations (printed R) = urls ∧
  batch_items (printed R) = urls ∧
  steps (printed R) = urls ≫= (λ url, [inl url; inr url]) ∧
  opened_files (calls R) = [].
Proof.
  induction urls as [|url rest IH]; intros i s h fs.
  { cbn. destruct s; cbn. rewrite !Nat.add_0_r, app_nil_r. done. }
  destruct (extract_audio_run w url od f q h fs) as (Hres & Hinv & Hitems & Hop & _).
  set (E := extract_audio w url od f q h fs) in *.
  set (ok := downloader_succeeded (calls E)) in *.
  pose (P := λ R : Run summary,
    let oks := ok :: item_results w od f q rest (h ++ calls E) (fs_after E) in
    let failed := failed_of (url :: rest) oks in
    length oks = length (url :: rest) ∧
    result R = Ret {| success_count := (success_count s + (length (url :: rest) - length failed))%nat;
                      fail_count := (fail_count s + length failed)%nat;
                      failed_urls := failed_urls s ++ failed |} ∧
    invocations (printed R) = url :: rest ∧
    batch_items (printed R) = url :: rest ∧
    steps (printed R) = (url :: rest) ≫= (λ url, [inl url; inr url]) ∧
    opened_files (calls R) = []).
  cbv zeta. cbn [item_results]. fold E. rewrite Hres.
  change (wp (batch_loop w total od f q i (url :: rest) s) h fs P).
  cbn [batch_loop]. do 8 wp_step.
  apply wp_bind, wp_use. intros r ->. fold E. rewrite Hres. wp_simpl.
  apply wp_use. intros r ->.
  match goal with |- context [batch_loop w total od f q (S i) rest ?s1 _ _] => set (s' := s1) end.
  destruct (IH (S i) s' (h ++ calls E) (fs_after E)) as (IHlen & IHres & IHinv & IHitems & IHsteps & IHop).
  pose proof (failed_of_length rest (item_results w od f q rest (h ++ calls E) (fs_after E)))
    as Hle.
  subst P. cbv beta zeta. cbn [result calls printed].
  split; [cbn [length]; by f_equal|].
  split.
  { rewrite IHres. f_equal. subst s'. destruct ok; cbn [failed_of length success_count
      fail_count failed_urls]; f_equal; try lia. by rewrite <- app_assoc. }
  split.
  { rewrite !invocations_skip by reflexivity.
    by rewrite invocations_app, Hinv, IHinv. }
  split.
  { rewrite !batch_items_skip by reflexivity. rewrite batch_items_keep.
    rewrite batch_items_skip by reflexivity.
    by rewrite batch_items_app, Hitems, IHitems. }
  split.
  { rewrite !steps_skip by reflexivity. rewrite steps_keep.
    rewrite steps_skip by reflexivity.
    rewrite steps_app, IHsteps, (steps_invocations _ Hitems), Hinv. reflexivity. }
  by rewrite opened_files_app, Hop, IHop.
Qed.

(** The driver as a whole. *)
Lemma batch_extract_audio_eq urls h fs :
  let L := batch_loop w (length urls) od f q 1 urls
             {| success_count := 0; fail_count := 0; failed_urls := [] |} h fs in
  ∀ s, result L = Ret s →
  batch_extract_audio w urls od f q h fs =
  mkRun (Ret tt) (fs_after L) (calls L)
    ([ nl +:+ str_mul "=" 80; "开始批量提取音频"; "总视频数: " +:+ pretty (length urls);
       "输出目录: " +:+ od; "音频格式: " +:+ f; "音频质量: " +:+ q; str_mul "=" 80 ]
     ++ printed L ++ report_lines s).
Proof.
  intros L s HL. wp_eq. unfold batch_extract_audio. do 14 wp_step.
  apply wp_bind, wp_use. intros r ->. fold L. rewrite HL. wp_simpl.
  apply wp_use. intros r ->. rewrite batch_report_eq. cbn [result fs_after calls printed].
  by rewrite app_nil_r.
Qed.

End Batch.

Section BatchTrace.

Variable w : World.
Variables (total : nat) (od f q : string).

Lemma item_runs_length urls : ∀ h fs,
  length (item_runs w od f q urls h fs) = length urls.
Proof.
  induction urls as [|url rest IH]; intros h fs; [done|].
  destruct (extract_audio_run w url od f q h fs) as (Hres & _).
  cbn [item_runs length]. cbv zeta. rewrite Hres. by rewrite IH.
Qed.

Lemma item_runs_extractor urls : ∀ h fs,
  Forall2 (λ url r, ∃ h' fs', r = extract_audio w url od f q h' fs')
    urls (item_runs w od f q urls h fs).
Proof.
  induction urls as [|url rest IH]; intros h fs; [constructor|].
  destruct (extract_audio_run w url od f q h fs) as (Hres & _).
  cbn [item_runs]. cbv zeta. rewrite Hres. constructor; [by eexists _, _|apply IH].
Qed.

Lemma item_results_runs urls : ∀ h fs,
  Ret <$> item_results w od f q urls h fs = result <$> item_runs w od f q urls h fs.
Proof.
  induction urls as [|url rest IH]; intros h fs; [done|].
  destruct (extract_audio_run w url od f q h fs) as (Hres & _).
  cbn [item_runs item_results]. cbv zeta. rewrite Hres. cbn [fmap list_fmap].
  f_equal; [by rewrite Hres|apply IH].
Qed.

(** The loop is the sequence of the runs of the extractor: its external
    calls are theirs, and it prints, for each request, the lines of the
    driver and then what the run of the extractor prints. *)
Lemma batch_loop_trace urls : ∀ i s h fs,
  let L := batch_loop w total od f q i urls s h fs in
  let runs := item_runs w od f q urls h fs in
  calls L = concat (calls <$> runs) ∧
  printed L = loop_lines total i urls runs.
Proof.
  induction urls as [|url rest IH]; intros i s h fs; [done|].
  destruct (extract_audio_run w url od f q h fs) as (Hres & _).
  set (E := extract_audio w url od f q h fs) in *.
  set (ok := downloader_succeeded (calls E)) in *.
  pose (P := λ L : Run summary,
    let runs := E :: item_runs w od f q rest (h ++ calls E) (fs_after E) in
    calls L = concat (calls <$> runs) ∧
    printed L = loop_lines total i (url :: rest) runs).
  cbv zeta. cbn [item_runs]. cbv zeta. fold E. rewrite Hres.
  change (wp (batch_loop w total od f q i (url :: rest) s) h fs P).
  cbn [batch_loop]. do 8 wp_step.
  apply wp_bind, wp_use. intros r ->. fold E. rewrite Hres. wp_simpl.
  apply wp_use. intros r ->.
  match goal with |- context [batch_loop w total od f q (S i) rest ?s1 _ _] => set (s' := s1) end.
  destruct (IH (S i) s' (h ++ calls E) (fs_after E)) as (IHcalls & IHprinted).
  subst P. cbv beta zeta. cbn [result calls printed].
  split.
  - cbn [fmap list_fmap concat]. by rewrite IHcalls.
  - cbn [loop_lines]. rewrite IHprinted. reflexivity.
Qed.

End BatchTrace.

(** The driver as the sequence of the runs of the extractor. *)
Lemma batch_extract_audio_trace (w : World) (urls : list string) (od f q : string)
    (h : list event) (fs : gmap string node) :
  let R := batch_extract_audio w urls od f q h fs in
  let runs := item_runs w od f q urls h fs in
  let oks := item_results w od f q urls h fs in
  let failed := failed_of urls oks in
  result R = Ret tt ∧
  calls R = concat (calls <$> runs) ∧
  printed R =
    batch_header urls od f q ++ loop_lines (length urls) 1 urls runs ++
    report_lines {| success_count := length urls - length failed;
                    fail_count := length failed;
                    failed_urls := failed |}.
Proof.
  cbv zeta.
  destruct (batch_loop_run w (length urls) od f q urls 1
              {| success_count := 0; fail_count := 0; failed_urls := [] |} h fs)
    as (_ & Hres & _).
  cbn [success_count fail_count failed_urls app] in Hres. rewrite !Nat.add_0_l in Hres.
  destruct (batch_loop_trace w (length urls) od f q urls 1
              {| success_count := 0; fail_count := 0; failed_urls := [] |} h fs)
    as (Hcalls & Hprinted).
  rewrite (batch_extract_audio_eq w od f q urls h fs _ Hres).
  cbn [result calls printed]. rewrite Hcalls, Hprinted. done.
Qed.

(** C3.  Of the [N] requests of a batch, each has an outcome.  With [K]
    the number of failures, the loop ends with [success_count = N - K],
    [fail_count = K] and [failed_urls] the URLs that failed, in the order
    of the input; the driver returns after printing the report of these
    three values.  On the empty sequence the summary is 0, 0 and the
    empty list. *)
Theorem batch_extract_audio_summary (w : World) (urls : list string) (od f q : string)
    (h : list event) (fs : gmap string node) :
  let R := batch_extract_audio w urls od f q h fs in
  let oks := item_results w od f q urls h fs in
  let failed := failed_of urls oks in
  let N := length urls in
  let K := length failed in
  length oks = N ∧
  K = length (filter (λ ok, ok = false) oks) ∧
  sublist failed urls ∧
  result (batch_loop w N od f q 1 urls
            {| success_count := 0; fail_count := 0; failed_urls := [] |} h fs)
    = Ret {| success_count := N - K; fail_count := K; failed_urls := failed |} ∧
  result R = Ret tt ∧
  (∃ before,
     printed R = before ++
       report_lines {| success_count := N - K; fail_count := K; failed_urls := failed |}) ∧
  result (batch_loop w 0 od f q 1 []
            {| success_count := 0; fail_count := 0; failed_urls := [] |} h fs)
    = Ret {| success_count := 0; fail_count := 0; failed_urls := [] |}.
Proof.
  cbv zeta.
  destruct (batch_loop_run w (length urls) od f q urls 1
              {| success_count := 0; fail_count := 0; failed_urls := [] |} h fs)
    as (Hlen & Hres & _).
  cbn [success_count fail_count failed_urls app] in Hres. rewrite !Nat.add_0_l in Hres.
  split; [exact Hlen|]. split; [by apply failed_of_count|].
  split; [apply failed_of_sublist|]. split; [exact Hres|].
  rewrite (batch_extract_audio_eq w od f q urls h fs _ Hres).
  split; [done|]. split; [|done].
  cbn [printed]. eexists. by rewrite app_assoc.
Qed.

(** C5.  The driver returns after invoking the extractor once on every
    request, in the order of the input and one at a time: the external
    calls of the batch are those of the runs of the extractor, one run
    per request, each started where the one before it ended, and what
    the batch prints is its header, then for each request the lines with
    which the driver takes it up followed by what the run of the
    extractor on it prints, then the report.  Every request has a run and
    an outcome, whatever the outcomes of the requests before it. *)
Theorem batch_extract_audio_order (w : World) (urls : list string) (od f q : string)
    (h : list event) (fs : gmap string node) :
  let R := batch_extract_audio w urls od f q h fs in
  let runs := item_runs w od f q urls h fs in
  let oks := item_results w od f q urls h fs in
  let failed := failed_of urls oks in
  result R = Ret tt ∧
  batch_items (printed R) = urls ∧
  invocations (printed R) = urls ∧
  steps (printed R) = urls ≫= (λ url, [inl url; inr url]) ∧
  length oks = length urls ∧
  length runs = length urls ∧
  Forall2 (λ url r, ∃ h' fs', r = extract_audio w url od f q h' fs') urls runs ∧
  result <$> runs = Ret <$> oks ∧
  calls R = concat (calls <$> runs) ∧
  printed R =
    batch_header urls od f q ++ loop_lines (length urls) 1 urls runs ++
    report_lines {| success_count := length urls - length failed;
                    fail_count := length failed;
                    failed_urls := failed |}.
Proof.
  cbv zeta.
  destruct (batch_extract_audio_trace w urls od f q h fs) as (_ & Hcalls & Hprinted).
  split; [|split; [|split; [|split; [|split; [|split; [|split; [|split; [|split]]]]]]]].
  10: exact Hprinted.
  9: exact Hcalls.
  8: symmetry; apply item_results_runs.
  7: apply item_runs_extractor.
  6: apply item_runs_length.
  all: clear Hcalls Hprinted.
  all: destruct (batch_loop_run w (length urls) od f q urls 1
              {| success_count := 0; fail_count := 0; failed_urls := [] |} h fs)
    as (Hlen & Hres & Hinv & Hitems & Hsteps & _).
  all: rewrite ?(batch_extract_audio_eq w od f q urls h fs _ Hres).
  all: cbn [result printed].
  all: pose proof report_lines_announce_nothing as Hr.
  - done.
  - cbn [app]. rewrite !batch_items_skip by reflexivity.
    by rewrite !batch_items_app, Hitems, (proj2 (Hr _)), app_nil_r.
  - cbn [app]. rewrite !invocations_skip by reflexivity.
    by rewrite !invocations_app, Hinv, (proj1 (Hr _)), app_nil_r.
  - cbn [app]. rewrite !steps_skip by reflexivity.
    by rewrite !steps_app, Hsteps,
       (steps_nothing _ (proj2 (Hr _)) (proj1 (Hr _))), app_nil_r.
  - exact Hlen.
Qed.

(** The scenario of three URLs of which one fails. *)
Example batch_of_three_one_failing :
  let urls := ["https://example.com/v1"; "https://example.com/v2"; "https://example.com/v3"] in
  let R := batch_extract_audio one_bad_url_world urls "audio" "mp3" "128k" [] ∅ in
  item_results one_bad_url_world "audio" "mp3" "128k" urls [] ∅ = [true; false; true] ∧
  result R = Ret tt ∧
  "成功: 2 个" ∈ printed R ∧
  "失败: 1 个" ∈ printed R ∧
  "  - https://example.com/v2" ∈ printed R.
Proof.
  cbv zeta. split; [by vm_compute|]. split; [by vm_compute|].
  repeat split; vm_compute; repeat (first [apply list_elem_of_here | apply list_elem_of_further]).
Qed.

(** * The program *)

Lemma batch_extract_audio_returns (w : World) (urls : list string) (od f q : string)
    (h : list event) (fs : gmap string node) :
  result (batch_extract_audio w urls od f q h fs) = Ret tt.
Proof.
  destruct (batch_loop_run w (length urls) od f q urls 1
              {| success_count := 0; fail_count := 0; failed_urls := [] |} h fs)
    as (_ & Hres & _).
  by rewrite (batch_extract_audio_eq w od f q urls h fs _ Hres).
Qed.

Section Main.

Variable w : World.
Variables (args : Args) (h : list event) (fs : gmap string node).

Let D := install_dependencies w h fs.
Let R := main w args h fs.

(** C4, as amended.  In a run where the dependency check returns, the
    exit code is 1 when the check returns [False]; otherwise it is 0
    when a non-empty [--url] is given, whatever [--file] is; otherwise it
    is 1 when no non-empty [--file] is given, when nothing exists at that
    path, when the file cannot be read, and when it has no line with
    anything but white space, and 0 in every other case, whatever the
    outcomes of the extractions. *)
Theorem main_exit_code (b : bool) :
  result D = Ret b →
  exit_code (result R) =
    if b then
      match truthy (arg_url args) with
      | Some _ => 0
      | None =>
          match truthy (arg_file args) with
          | None => 1
          | Some file =>
              match fs !! file with
              | None => 1
              | Some _ =>
                  match open_result w (h ++ calls D) file with
                  | inl _ => 1
                  | inr lines =>
                      match read_urls lines with
                      | [] => 1
                      | _ :: _ => 0
                      end
                  end
              end
          end
      end
    else 1.
Proof.
  intros HD.
  destruct (install_dependencies_frame w h fs) as (Hfs & _ & _). fold D in Hfs.
  pose (P := λ R : Run unit,
    exit_code (result R) =
      if b then
        match truthy (arg_url args) with
        | Some _ => 0
        | None =>
            match truthy (arg_file args) with
            | None => 1
            | Some file =>
                match fs !! file with
                | None => 1
                | Some _ =>
                    match open_result w (h ++ calls D) file with
                    | inl _ => 1
                    | inr lines =>
                        match read_urls lines with
                        | [] => 1
                        | _ :: _ => 0
                        end
                    end
                end
            end
        end
      else 1).
  change (wp (main w args) h fs P). unfold main. do 4 wp_step.
  apply wp_bind, wp_use. intros r ->. fold D. rewrite HD, Hfs. wp_simpl.
  destruct b; wp_simpl.
  2: { wp_run. by subst P. }
  wp_run.
  - apply wp_use. intros r ->.
    destruct (extract_audio_run w s (arg_output args) (arg_format args) (arg_quality args)
                (h ++ calls D) fs) as (Hres & _).
    rewrite Hres. wp_run. by subst P.
  - by subst P.
  - by subst P.
  - apply wp_use. intros r ->. rewrite batch_extract_audio_returns. by subst P.
  - by subst P.
  - by subst P.
Qed.


End Main.

(** C4, as the specification states it, fails when a URL is given together
    with a URL list that does not exist: the path of [--file] does not
    exist, and the program ends with status 0. *)
Lemma exit_one_iff_listed_fails :
  ¬ exit_one_iff_listed working_world
      (mkArgs (Some "https://example.com/v1") (Some "missing.txt") "audio" "mp3" "128k")
      [] ∅.
Proof.
  intros [_ H].
  assert (exit_code (result (main working_world
            (mkArgs (Some "https://example.com/v1") (Some "missing.txt") "audio" "mp3" "128k")
            [] ∅)) = 1) as Hexit.
  { apply H. right. left. exists "missing.txt". split; [reflexivity|]. apply lookup_empty. }
  vm_compute in Hexit. discriminate.
Qed.

Lemma main_exit_code_witness :
  result (install_dependencies working_world [] ∅) = Ret true ∧
  exit_code (result (main working_world
                       (mkArgs (Some "https://example.com/v1") (Some "missing.txt")
                          "audio" "mp3" "128k") [] ∅)) = 0 ∧
  exit_code (result (main working_world
                       (mkArgs None (Some "missing.txt") "audio" "mp3" "128k") [] ∅)) = 1.
Proof.
  split; [reflexivity|]. split.
  - exact (main_exit_code working_world
             (mkArgs (Some "https://example.com/v1") (Some "missing.txt") "audio" "mp3" "128k")
             [] ∅ true eq_refl).
  - exact (main_exit_code working_world
             (mkArgs None (Some "missing.txt") "audio" "mp3" "128k") [] ∅ true eq_refl).
Defined.



(** The scenarios of the specification. *)
Example scenario_single_url :
  let R := main working_world (mkArgs (Some "https://example.com/v1") None "audio" "mp3" "128k")
             [] ∅ in
  exit_code (result R) = 0 ∧ fs_after R !! "audio" = Some Dir.
Proof. by vm_compute. Qed.

Example scenario_three_urls_one_failing :
  let R := main one_bad_url_world (mkArgs None (Some "urls.txt") "audio" "mp3" "128k")
             [] {[ "urls.txt" := File ]} in
  exit_code (result R) = 0 ∧
  invocations (printed R) =
    ["https://example.com/v1"; "https://example.com/v2"; "https://example.com/v3"] ∧
  reported_errors (printed R) = ["ERROR: Unsupported URL: https://example.com/v2"].
Proof. by vm_compute. Qed.

Example scenario_missing_file :
  let R := main working_world (mkArgs None (Some "missing.txt") "audio" "mp3" "128k") [] ∅ in
  exit_code (result R) = 1 ∧ invocations (printed R) = [] ∧
  extraction_attempted (calls R) = false.
Proof. by vm_compute. Qed.

Example scenario_no_input :
  let R := main working_world (mkArgs None None "audio" "mp3" "128k") [] ∅ in
  exit_code (result R) = 1 ∧ "使用 --help 查看帮助信息" ∈ printed R.
Proof.
  cbv zeta. split; [by vm_compute|].
  vm_compute; repeat (first [apply list_elem_of_here | apply list_elem_of_further]).
Qed.

(** * More on the single-item extractor *)

Ltac obs_simpl_more :=
  cbv beta iota zeta delta [commands event_command answers event_answer library_errors
    library_error is_ImportError makedirs_answers event_makedirs downloads event_download
    success_messages success_message reported_stdout reported_stderr progress ffmpeg_notes
    invocations batch_items probe_launched reported_titles reported_errors error_text errors infos
    opened_files downloader_succeeded import_failed extraction_attempted event_error event_info
    event_open omap list_omap existsb orb andb last fmap list_fmap option_list length
    strip_prefix String.append Ascii.eqb Bool.eqb nl str_mul].

Section ExtractorMore.

Variable w : World.
Variables (u od f q : string) (h : list event) (fs : gmap string node).

Let R := extract_audio w u od f q h fs.

(** Further facts on every run of the extractor. *)
Lemma extract_audio_run_more :
  (length (calls R) ≤ 6)%nat ∧
  (length (makedirs_answers (calls R)) ≤ 1)%nat ∧
  (length (downloads (calls R)) ≤ 1)%nat ∧
  (length (commands (calls R)) ≤ 1)%nat ∧
  commands (calls R) =
    (if is_ImportError (last (library_errors (calls R)))
     then [fallback_cmd u od f q] else []) ∧
  length (success_messages (printed R)) =
    (length (infos (calls R)) + length (reported_stdout (printed R)))%nat ∧
  reported_stdout (printed R) =
    omap (λ r, match r with inr out => Some out | inl _ => None end) (answers (calls R)) ∧
  reported_stderr (printed R) =
    omap (λ r, match r with
               | inl (CalledProcessError _ _ err) => Some err
               | _ => None
               end) (answers (calls R)) ∧
  progress (printed R) = [] ∧
  Forall (about_request u od f q) (calls R) ∧
  (downloads (calls R) = [] ∨ downloads (calls R) = [u]) ∧
  match fs !! od with
  | Some _ => makedirs_answers (calls R) = [] ∧ fs_after R = fs
  | None =>
      (∃ e, makedirs_answers (calls R) = [Some e] ∧ fs_after R = fs) ∨
      (makedirs_answers (calls R) = [None] ∧ fs_after R = <[od := Dir]> fs)
  end.
Proof.
  pose (P := λ R : Run bool,
    (length (calls R) ≤ 6)%nat ∧
    (length (makedirs_answers (calls R)) ≤ 1)%nat ∧
    (length (downloads (calls R)) ≤ 1)%nat ∧
    (length (commands (calls R)) ≤ 1)%nat ∧
    commands (calls R) =
      (if is_ImportError (last (library_errors (calls R)))
       then [fallback_cmd u od f q] else []) ∧
    length (success_messages (printed R)) =
      (length (infos (calls R)) + length (reported_stdout (printed R)))%nat ∧
    reported_stdout (printed R) =
      omap (λ r, match r with inr out => Some out | inl _ => None end) (answers (calls R)) ∧
    reported_stderr (printed R) =
      omap (λ r, match r with
                 | inl (CalledProcessError _ _ err) => Some err
                 | _ => None
                 end) (answers (calls R)) ∧
    progress (printed R) = [] ∧
    Forall (about_request u od f q) (calls R) ∧
    (downloads (calls R) = [] ∨ downloads (calls R) = [u]) ∧
    match fs !! od with
    | Some _ => makedirs_answers (calls R) = [] ∧ fs_after R = fs
    | None =>
        (∃ e, makedirs_answers (calls R) = [Some e] ∧ fs_after R = fs) ∨
        (makedirs_answers (calls R) = [None] ∧ fs_after R = <[od := Dir]> fs)
    end).
  subst R. extract_audio_cases P (extract_audio w u od f q h fs).
  all: repeat match goal with
              | H : fs !! od = _ |- _ => rewrite H; clear H
              | H : makedirs_fault w h od = _ |- _ => rewrite H; clear H
              end;
       obs_simpl_more.
  all: split; [lia|]; split; [lia|]; split; [lia|]; split; [lia|];
       split; [reflexivity|]; split; [reflexivity|]; split; [reflexivity|];
       split; [reflexivity|]; split; [reflexivity|];
       split; [repeat (apply Forall_cons; split; [by cbn|]); apply Forall_nil|];
       split; [first [by left | by right]|].
  all: first [by split | by right | left; by eexists].
Qed.

(** X1.  One attempt per request: a run of the extractor makes at most
    six external calls, among them at most one [os.makedirs], at most one
    [extract_info] and at most one downloader command. *)
Theorem extract_audio_one_attempt :
  (length (calls R) ≤ 6)%nat ∧
  (length (makedirs_answers (calls R)) ≤ 1)%nat ∧
  (length (downloads (calls R)) ≤ 1)%nat ∧
  (length (commands (calls R)) ≤ 1)%nat.
Proof.
  destruct extract_audio_run_more as (H1 & H2 & H3 & H4 & _). done.
Qed.

(** X2.  The fallback command runs exactly when the last exception raised
    by the calls into the library is an [ImportError], wherever it comes
    from: the import, the constructor, [extract_info] or [__exit__].  No
    other command is ever run. *)
Theorem extract_audio_fallback_iff :
  commands (calls R) =
    if is_ImportError (last (library_errors (calls R)))
    then [fallback_cmd u od f q] else [].
Proof.
  destruct extract_audio_run_more as (_ & _ & _ & _ & H & _). exact H.
Qed.

(** X3.  The line that announces a success is printed once for every info
    that [extract_info] returned and once for a fallback command that
    exited with status 0, whatever the extractor returns in the end. *)
Theorem extract_audio_success_messages :
  length (success_messages (printed R)) =
    (length (infos (calls R)) +
     length (omap (λ r, match r with inr out => Some out | inl _ => None end)
               (answers (calls R))))%nat.
Proof.
  destruct extract_audio_run_more as (_ & _ & _ & _ & _ & H & Hout & _).
  by rewrite H, Hout.
Qed.

(** X4.  Of the fallback process the extractor prints the standard output
    when it exits with status 0, the standard error when it exits with
    another status, and neither when it could not be run. *)
Theorem extract_audio_process_output :
  reported_stdout (printed R) =
    omap (λ r, match r with inr out => Some out | inl _ => None end) (answers (calls R)) ∧
  reported_stderr (printed R) =
    omap (λ r, match r with
               | inl (CalledProcessError _ _ err) => Some err
               | _ => None
               end) (answers (calls R)).
Proof.
  destruct extract_audio_run_more as (_ & _ & _ & _ & _ & _ & H1 & H2 & _). done.
Qed.

(** X5.  Every external call of a run concerns the request: [os.makedirs]
    is called on the output directory, the library with the options built
    from the request and on its URL, [subprocess.run] on the fallback
    command of the request; no file is opened. *)
Theorem extract_audio_about_request :
  Forall (about_request u od f q) (calls R).
Proof.
  destruct extract_audio_run_more as (_ & _ & _ & _ & _ & _ & _ & _ & _ & H & _). exact H.
Qed.

End ExtractorMore.

(** A run that announces a success and returns [False]: [extract_info]
    returns, and leaving the [with] block raises. *)
Example success_announced_then_failure :
  let w := {| run_result := λ _ _, inr "";
              makedirs_fault := λ _ _, None;
              import_result := λ _, None;
              YoutubeDL_result := λ _ _, None;
              extract_info_result := λ _ _ _, inr {[ "title" := "Song" ]};
              close_result := λ _, Some (OSError "[Errno 28] No space left on device");
              open_result := λ _ _, inr [] |} in
  let R := extract_audio w "https://example.com/v1" "audio" "mp3" "128k" [] ∅ in
  result R = Ret false ∧
  success_messages (printed R) = [tt] ∧
  reported_errors (printed R) = ["[Errno 28] No space left on device"].
Proof. by vm_compute. Qed.

(** * More on the dependency checker *)

Section DependenciesMore.

Variable w : World.
Variables (h : list event) (fs : gmap string node).

Let D := install_dependencies w h fs.

(** What every run of the checker satisfies. *)
Lemma install_dependencies_run :
  let rw := run_result w h ["which"; "ffmpeg"] in
  let rs := run_result w (h ++ [EvRun ["which"; "ffmpeg"] rw]) ["pip3"; "show"; "yt-dlp"] in
  commands (calls D) =
    ["which"; "ffmpeg"] ::
    (if probe_launched rw then
       ["pip3"; "show"; "yt-dlp"] ::
       match rs with
       | inl (CalledProcessError _ _ _) => [["pip3"; "install"; "yt-dlp"]]
       | _ => []
       end
     else []) ∧
  length (commands (calls D)) = length (calls D) ∧
  ffmpeg_notes (printed D) =
    match rw with
    | inr _ => [true]
    | inl (CalledProcessError _ _ _) => [false]
    | inl _ => []
    end ∧
  extraction_attempted (calls D) = false ∧
  makedirs_answers (calls D) = [] ∧
  (∀ c, result D ≠ Exit c) ∧
  (∀ e, result D = Raise e →
     (rw = inl e ∧ probe_launched rw = false) ∨ (rs = inl e ∧ probe_launched rs = false)).
Proof.
  pose (P := λ R : Run bool,
    let rw := run_result w h ["which"; "ffmpeg"] in
    let rs := run_result w (h ++ [EvRun ["which"; "ffmpeg"] rw]) ["pip3"; "show"; "yt-dlp"] in
    commands (calls R) =
      ["which"; "ffmpeg"] ::
      (if probe_launched rw then
         ["pip3"; "show"; "yt-dlp"] ::
         match rs with
         | inl (CalledProcessError _ _ _) => [["pip3"; "install"; "yt-dlp"]]
         | _ => []
         end
       else []) ∧
    length (commands (calls R)) = length (calls R) ∧
    ffmpeg_notes (printed R) =
      match rw with
      | inr _ => [true]
      | inl (CalledProcessError _ _ _) => [false]
      | inl _ => []
      end ∧
    extraction_attempted (calls R) = false ∧
    makedirs_answers (calls R) = [] ∧
    (∀ c, result R ≠ Exit c) ∧
    (∀ e, result R = Raise e →
       (rw = inl e ∧ probe_launched rw = false) ∨ (rs = inl e ∧ probe_launched rs = false))).
  change (wp (install_dependencies w) h fs P).
  unfold install_dependencies, check_ffmpeg. wp_run.
  all: subst P; cbv beta zeta; rewrite <- ?app_assoc in *; cbn [app] in *.
  all: rewrite_answers; obs_simpl_more.
  all: split; [reflexivity|]; split; [reflexivity|]; split; [reflexivity|];
       split; [reflexivity|]; split; [reflexivity|]; split; [discriminate|].
  all: intros e' He'; try discriminate; injection He' as <-; auto.
Qed.

(** X6.  The checker runs [which ffmpeg] first; [pip3 show yt-dlp]
    follows unless [which] could not be launched, whatever [which]
    answered otherwise; [pip3 install yt-dlp] follows, once, exactly when
    [pip3 show] exits with a nonzero status.  It makes no other call. *)
Theorem install_dependencies_commands :
  let rw := run_result w h ["which"; "ffmpeg"] in
  let rs := run_result w (h ++ [EvRun ["which"; "ffmpeg"] rw]) ["pip3"; "show"; "yt-dlp"] in
  commands (calls D) =
    ["which"; "ffmpeg"] ::
    (if probe_launched rw then
       ["pip3"; "show"; "yt-dlp"] ::
       match rs with
       | inl (CalledProcessError _ _ _) => [["pip3"; "install"; "yt-dlp"]]
       | _ => []
       end
     else []) ∧
  length (commands (calls D)) = length (calls D).
Proof.
  destruct install_dependencies_run as (H1 & H2 & _). done.
Qed.

(** X7.  The checker prints that ffmpeg is installed when [which ffmpeg]
    exits with status 0, its warning when [which] exits with another
    status, and neither when [which] could not be launched. *)
Theorem install_dependencies_ffmpeg_note :
  ffmpeg_notes (printed D) =
    match run_result w h ["which"; "ffmpeg"] with
    | inr _ => [true]
    | inl (CalledProcessError _ _ _) => [false]
    | inl _ => []
    end.
Proof.
  destruct install_dependencies_run as (_ & _ & H & _). exact H.
Qed.

(** X8.  The checker never calls [sys.exit], never reaches the downloader
    library, never calls [os.makedirs] and opens no file. *)
Theorem install_dependencies_never :
  (∀ c, result D ≠ Exit c) ∧
  extraction_attempted (calls D) = false ∧
  makedirs_answers (calls D) = [] ∧
  opened_files (calls D) = [].
Proof.
  destruct install_dependencies_run as (_ & _ & _ & H1 & H2 & H3 & _).
  destruct (install_dependencies_frame w h fs) as (H4 & H5 & _). done.
Qed.

(** X9.  The checker raises only the exception of a probe that could not
    be launched: one raised by [which ffmpeg] or by [pip3 show yt-dlp]
    that is no [CalledProcessError].  An exception of the installation
    attempt is never raised. *)
Theorem install_dependencies_raises (e : exn) :
  result D = Raise e →
  let rw := run_result w h ["which"; "ffmpeg"] in
  let rs := run_result w (h ++ [EvRun ["which"; "ffmpeg"] rw]) ["pip3"; "show"; "yt-dlp"] in
  (rw = inl e ∧ probe_launched rw = false) ∨ (rs = inl e ∧ probe_launched rs = false).
Proof.
  intros He. destruct install_dependencies_run as (_ & _ & _ & _ & _ & _ & H). by apply H.
Qed.

End DependenciesMore.

Lemma install_dependencies_result_witness :
  probe_launched (run_result working_world [] ["which"; "ffmpeg"]) = true ∧
  result (install_dependencies working_world [] ∅) = Ret true.
Proof.
  split; [reflexivity|].
  exact (install_dependencies_result working_world [] ∅ eq_refl eq_refl).
Defined.

Lemma install_dependencies_raises_witness :
  result (install_dependencies no_which_world [] ∅)
    = Raise (OSError "[Errno 2] No such file or directory: 'which'") ∧
  run_result no_which_world [] ["which"; "ffmpeg"]
    = inl (OSError "[Errno 2] No such file or directory: 'which'").
Proof.
  split; [reflexivity|].
  destruct (install_dependencies_raises no_which_world [] ∅
              (OSError "[Errno 2] No such file or directory: 'which'") eq_refl)
    as [[H _]|[H _]].
  - exact H.
  - vm_compute in H. discriminate.
Defined.

(** * More on the batch driver *)

Lemma progress_app l1 l2 :
  progress (l1 ++ l2) = progress l1 ++ progress l2.
Proof. apply omap_app. Qed.

Lemma progress_skip x l :
  strip_prefix "处理第 " x = None → progress (x :: l) = progress l.
Proof. unfold progress. cbn [omap list_omap]. by intros ->. Qed.

Lemma progress_keep x l :
  progress (("处理第 " +:+ x) :: l) = x :: progress l.
Proof. reflexivity. Qed.

Lemma downloads_app l1 l2 :
  downloads (l1 ++ l2) = downloads l1 ++ downloads l2.
Proof. apply omap_app. Qed.

Lemma commands_app l1 l2 :
  commands (l1 ++ l2) = commands l1 ++ commands l2.
Proof. apply omap_app. Qed.

Lemma makedirs_answers_app l1 l2 :
  makedirs_answers (l1 ++ l2) = makedirs_answers l1 ++ makedirs_answers l2.
Proof. apply omap_app. Qed.

Lemma progress_failed_lines (l : list string) :
  progress ((λ url, "  - " +:+ url) <$> l) = [].
Proof. induction l as [|x l IH]; [done|exact IH]. Qed.

Lemma report_lines_no_progress s :
  progress (report_lines s) = [].
Proof.
  unfold report_lines. rewrite !progress_app.
  destruct (failed_urls s) as [|x l]; [done|].
  change (progress ((nl +:+ "失败的URL:") :: ((λ url, "  - " +:+ url) <$> x :: l)))
    with (progress ((λ url, "  - " +:+ url) <$> x :: l)).
  by rewrite progress_failed_lines.
Qed.

Section BatchMore.

Variable w : World.
Variables (total : nat) (od f q : string).

(** Further facts on the loop. *)
Lemma batch_loop_run_more urls : ∀ i s h fs,
  let L := batch_loop w total od f q i urls s h fs in
  progress (printed L) =
    (λ k, pretty k +:+ "/" +:+ pretty total +:+ " 个视频") <$> seq i (length urls) ∧
  sublist (downloads (calls L)) urls ∧
  sublist (commands (calls L)) ((λ url, fallback_cmd url od f q) <$> urls) ∧
  match fs !! od with
  | Some _ => makedirs_answers (calls L) = [] ∧ fs_after L = fs
  | None =>
      ∃ es, (makedirs_answers (calls L) = Some <$> es ∧ fs_after L = fs) ∨
            (makedirs_answers (calls L) = (Some <$> es) ++ [None] ∧
             fs_after L = <[od := Dir]> fs)
  end.
Proof.
  induction urls as [|url rest IH]; intros i s h fs.
  { cbn. repeat split; try apply sublist_nil_l.
    destruct (fs !! od); [done|]. exists []. by left. }
  destruct (extract_audio_run w url od f q h fs) as (Hres & _).
  destruct (extract_audio_run_more w url od f q h fs)
    as (_ & _ & _ & _ & Hcmd & _ & _ & _ & Hprog & _ & Hdl & Hmk).
  set (E := extract_audio w url od f q h fs) in *.
  set (ok := downloader_succeeded (calls E)) in *.
  pose (P := λ R : Run summary,
    progress (printed R) =
      (λ k, pretty k +:+ "/" +:+ pretty total +:+ " 个视频") <$> seq i (length (url :: rest)) ∧
    sublist (downloads (calls R)) (url :: rest) ∧
    sublist (commands (calls R)) ((λ url, fallback_cmd url od f q) <$> url :: rest) ∧
    match fs !! od with
    | Some _ => makedirs_answers (calls R) = [] ∧ fs_after R = fs
    | None =>
        ∃ es, (makedirs_answers (calls R) = Some <$> es ∧ fs_after R = fs) ∨
              (makedirs_answers (calls R) = (Some <$> es) ++ [None] ∧
               fs_after R = <[od := Dir]> fs)
    end).
  cbv zeta.
  change (wp (batch_loop w total od f q i (url :: rest) s) h fs P).
  cbn [batch_loop]. do 8 wp_step.
  apply wp_bind, wp_use. intros r ->. fold E. rewrite Hres. wp_simpl.
  apply wp_use. intros r ->.
  match goal with |- context [batch_loop w total od f q (S i) rest ?s1 _ _] => set (s' := s1) end.
  destruct (IH (S i) s' (h ++ calls E) (fs_after E)) as (IHprog & IHdl & IHcmd & IHmk).
  subst P. cbv beta. cbn [result calls printed fs_after].
  split.
  { rewrite progress_skip by reflexivity. rewrite progress_keep.
    rewrite !progress_skip by reflexivity.
    rewrite progress_app, Hprog, IHprog. reflexivity. }
  split.
  { rewrite downloads_app. destruct Hdl as [-> | ->].
    - by apply sublist_cons.
    - by apply sublist_skip. }
  split.
  { rewrite commands_app, Hcmd. cbn [fmap list_fmap].
    destruct (is_ImportError _).
    - by apply sublist_skip.
    - by apply sublist_cons. }
  rewrite makedirs_answers_app.
  destruct (fs !! od) as [n|] eqn:Hfs.
  - destruct Hmk as [-> HfsE]. rewrite HfsE in *. rewrite Hfs in IHmk.
    destruct IHmk as [-> ->]. done.
  - destruct Hmk as [(e & -> & HfsE) | [-> HfsE]]; rewrite HfsE in *.
    + rewrite Hfs in IHmk. destruct IHmk as (es & [[-> ->] | [-> ->]]).
      * exists (e :: es). by left.
      * exists (e :: es). by right.
    + rewrite lookup_insert_eq in IHmk. destruct IHmk as [-> ->].
      exists []. by right.
Qed.

End BatchMore.

Section BatchMakedirs.

Variable w : World.
Variables (od f q : string).

(** The calls of [os.makedirs] over a sequence of runs of the extractor:
    none while something exists at the output path, and otherwise one per
    run until one succeeds. *)
Lemma item_runs_makedirs urls : ∀ h fs,
  let cs := concat (calls <$> item_runs w od f q urls h fs) in
  match fs !! od with
  | Some _ => makedirs_answers cs = []
  | None =>
      ∃ es, (makedirs_answers cs = Some <$> es ∧ length es = length urls) ∨
            (makedirs_answers cs = (Some <$> es) ++ [None] ∧ (length es < length urls)%nat)
  end.
Proof.
  induction urls as [|url rest IH]; intros h fs; cbv zeta.
  { cbn. destruct (fs !! od); [done|]. exists []. by left. }
  destruct (extract_audio_run w url od f q h fs) as (Hres & _).
  destruct (extract_audio_run_more w url od f q h fs)
    as (_ & _ & _ & _ & _ & _ & _ & _ & _ & _ & _ & Hmk).
  cbn [item_runs]. cbv zeta. rewrite Hres.
  set (E := extract_audio w url od f q h fs) in *.
  specialize (IH (h ++ calls E) (fs_after E)). cbv zeta in IH.
  cbn [fmap list_fmap concat]. rewrite makedirs_answers_app.
  set (cs := concat (calls <$> item_runs w od f q rest (h ++ calls E) (fs_after E))) in *.
  destruct (fs !! od) as [n|] eqn:Hod.
  - destruct Hmk as [Hmk HfsE]. rewrite HfsE, Hod in IH. by rewrite Hmk, IH.
  - destruct Hmk as [(e & Hmk & HfsE) | (Hmk & HfsE)].
    + rewrite HfsE, Hod in IH. destruct IH as (es & [[IH Hlen] | [IH Hlen]]).
      * exists (e :: es). left. rewrite Hmk, IH. cbn [length]. by rewrite Hlen.
      * exists (e :: es). right. rewrite Hmk, IH. cbn [length]. split; [done|lia].
    + rewrite HfsE, lookup_insert_eq in IH. exists []. right.
      rewrite Hmk, IH. cbn [length]. split; [done|lia].
Qed.

End BatchMakedirs.

Section BatchClaimsMore.

Variable w : World.
Variables (urls : list string) (od f q : string) (h : list event) (fs : gmap string node).

Let R := batch_extract_audio w urls od f q h fs.

Lemma batch_extract_audio_run_more :
  progress (printed R) =
    (λ k, pretty k +:+ "/" +:+ pretty (length urls) +:+ " 个视频") <$> seq 1 (length urls) ∧
  sublist (downloads (calls R)) urls ∧
  sublist (commands (calls R)) ((λ url, fallback_cmd url od f q) <$> urls) ∧
  match fs !! od with
  | Some _ => makedirs_answers (calls R) = [] ∧ fs_after R = fs
  | None =>
      ∃ es, (makedirs_answers (calls R) = Some <$> es ∧ fs_after R = fs) ∨
            (makedirs_answers (calls R) = (Some <$> es) ++ [None] ∧
             fs_after R = <[od := Dir]> fs)
  end.
Proof.
  destruct (batch_loop_run w (length urls) od f q urls 1
              {| success_count := 0; fail_count := 0; failed_urls := [] |} h fs)
    as (_ & Hres & _).
  destruct (batch_loop_run_more w (length urls) od f q urls 1
              {| success_count := 0; fail_count := 0; failed_urls := [] |} h fs)
    as (Hprog & Hdl & Hcmd & Hmk).
  subst R. rewrite (batch_extract_audio_eq w od f q urls h fs _ Hres).
  cbn [calls printed fs_after].
  split; [|done].
  cbn [app]. rewrite !progress_skip by reflexivity.
  by rewrite progress_app, Hprog, report_lines_no_progress, app_nil_r.
Qed.

(** X10.  The progress lines of a batch number the requests from 1 to the
    length of the list, in order, each with the total. *)
Theorem batch_progress_numbering :
  progress (printed R) =
    (λ k, pretty k +:+ "/" +:+ pretty (length urls) +:+ " 个视频") <$> seq 1 (length urls).
Proof. destruct batch_extract_audio_run_more as (H & _). exact H. Qed.

(** X11.  Over a whole batch [os.makedirs] is called only while nothing
    exists at the output path: not at all when something exists there
    from the start, and otherwise once for every request until it
    succeeds, so once for each request when it fails every time, and
    never again after a call that succeeded. *)
Theorem batch_output_dir_once :
  match fs !! od with
  | Some _ => makedirs_answers (calls R) = []
  | None =>
      ∃ es, (makedirs_answers (calls R) = Some <$> es ∧ length es = length urls) ∨
            (makedirs_answers (calls R) = (Some <$> es) ++ [None] ∧
             (length es < length urls)%nat)
  end.
Proof.
  destruct (batch_extract_audio_trace w urls od f q h fs) as (_ & Hcalls & _).
  fold R in Hcalls. rewrite Hcalls. apply item_runs_makedirs.
Qed.

(** X12.  A batch downloads only what it was given: the URLs handed to
    [extract_info] and the fallback commands run are taken from the list
    of requests, in its order, at most one of each per request. *)
Theorem batch_downloads_in_order :
  sublist (downloads (calls R)) urls ∧
  sublist (commands (calls R)) ((λ url, fallback_cmd url od f q) <$> urls).
Proof. destruct batch_extract_audio_run_more as (_ & H1 & H2 & _). done. Qed.

End BatchClaimsMore.

(** * More on the program *)

Lemma extraction_attempted_app l1 l2 :
  extraction_attempted (l1 ++ l2) = extraction_attempted l1 || extraction_attempted l2.
Proof. apply existsb_app. Qed.

Lemma batch_extract_audio_announces (w : World) (urls : list string) (od f q : string)
    (h : list event) (fs : gmap string node) :
  let B := batch_extract_audio w urls od f q h fs in
  result B = Ret tt ∧ invocations (printed B) = urls ∧ opened_files (calls B) = [].
Proof.
  cbv zeta.
  destruct (batch_loop_run w (length urls) od f q urls 1
              {| success_count := 0; fail_count := 0; failed_urls := [] |} h fs)
    as (_ & Hres & Hinv & _ & _ & Hop).
  rewrite (batch_extract_audio_eq w od f q urls h fs _ Hres).
  cbn [result printed calls]. split; [done|]. split; [|done].
  cbn [app]. rewrite !invocations_skip by reflexivity.
  by rewrite !invocations_app, Hinv, (proj1 (report_lines_announce_nothing _)), app_nil_r.
Qed.

Section MainMore.

Variable w : World.
Variables (args : Args) (h : list event) (fs : gmap string node).

Let D := install_dependencies w h fs.
Let R := main w args h fs.

(** What every run of the program satisfies. *)
Lemma main_run :
  (exit_code (result R) = 0 ∨ exit_code (result R) = 1) ∧
  (∀ c, result R = Exit c →
     c = 1 ∧ extraction_attempted (calls R) = false ∧ invocations (printed R) = []) ∧
  (∀ e, result R = Raise e → result D = Raise e ∧ calls R = calls D) ∧
  (∃ rest, calls R = calls D ++ rest ∧ (result D ≠ Ret true → rest = [])).
Proof.
  destruct (install_dependencies_frame w h fs) as (Hfs & Hop & Hinv).
  destruct (install_dependencies_run w h fs) as (_ & _ & _ & Hext & _ & Hexit & _).
  fold D in Hfs, Hop, Hinv, Hext, Hexit.
  pose (P := λ R : Run unit,
    (exit_code (result R) = 0 ∨ exit_code (result R) = 1) ∧
    (∀ c, result R = Exit c →
       c = 1 ∧ extraction_attempted (calls R) = false ∧ invocations (printed R) = []) ∧
    (∀ e, result R = Raise e → result D = Raise e ∧ calls R = calls D) ∧
    (∃ rest, calls R = calls D ++ rest ∧ (result D ≠ Ret true → rest = []))).
  change (wp (main w args) h fs P). unfold main. do 4 wp_step.
  apply wp_bind, wp_use. intros r ->. fold D.
  destruct (result D) as [[]|e|c] eqn:HD; wp_simpl.
  4: by destruct (Hexit c).
  3: { subst P. cbv beta. cbn [result calls printed exit_code].
       split; [by right|]. split; [done|]. split; [by intros ? [= <-]|].
       exists []. by rewrite app_nil_r. }
  2: { wp_run. subst P. cbv beta. cbn [result calls printed exit_code].
       split; [by right|]. split.
       { intros ? [= <-]. rewrite Hext, !invocations_skip by reflexivity.
         by rewrite invocations_app, Hinv. }
       split; [done|]. exists []. by rewrite app_nil_r. }
  wp_run.
  1: { apply wp_use. intros r ->.
       destruct (extract_audio_run w s (arg_output args) (arg_format args) (arg_quality args)
                   (h ++ calls D) (fs_after D)) as (Hres & _).
       rewrite Hres. wp_run. subst P. cbv beta. cbn [result calls printed exit_code].
       split; [by left|]. split; [done|]. split; [done|]. by eexists. }
  3: { apply wp_use. intros r ->.
       destruct (batch_extract_audio_announces w (s0 :: l0) (arg_output args) (arg_format args)
                   (arg_quality args) ((h ++ calls D) ++ [EvOpen s (inr l)]) (fs_after D))
         as (Hres & _).
       rewrite Hres. subst P. cbv beta. cbn [result calls printed exit_code].
       split; [by left|]. split; [done|]. split; [done|]. by eexists. }
  all: subst P; cbv beta; cbn [result calls printed exit_code].
  all: split; [by right|].
  all: split;
    [ intros ? [= <-]; rewrite ?extraction_attempted_app, Hext, !invocations_skip by reflexivity;
      by rewrite !invocations_app, Hinv |].
  all: split; [done|].
  all: first [ by eexists | exists []; by rewrite app_nil_r ].
Qed.

(** X13.  After the command line is parsed the program ends with status 0
    or 1, never with another one. *)
Theorem main_exit_code_range :
  exit_code (result R) = 0 ∨ exit_code (result R) = 1.
Proof. destruct main_run as (H & _). exact H. Qed.

(** X14.  Whenever the program stops through [sys.exit], the status is 1
    and nothing was extracted: the downloader was not reached and the
    extractor was not even started. *)
Theorem main_exits_before_extraction (c : Z) :
  result R = Exit c →
  c = 1 ∧ extraction_attempted (calls R) = false ∧ invocations (printed R) = [].
Proof. destruct main_run as (_ & H & _). apply H. Qed.

(** X15.  An exception leaves the program only from the dependency check,
    and then nothing was called after it. *)
Theorem main_raises_only_from_check (e : exn) :
  result R = Raise e → result D = Raise e ∧ calls R = calls D.
Proof. destruct main_run as (_ & _ & H & _). apply H. Qed.

(** X16.  The dependency check comes first: its external calls open every
    run, and no call follows them unless the check returned [True]. *)
Theorem main_checks_dependencies_first :
  ∃ rest, calls R = calls D ++ rest ∧ (result D ≠ Ret true → rest = []).
Proof. destruct main_run as (_ & _ & _ & H). exact H. Qed.

(** X17.  Without a non-empty [--url], with a [--file] that exists and
    can be read, and after a successful dependency check, the program
    opens that file once and then runs the extractor once on every line
    that holds more than white space, stripped, in the order of the file:
    after the calls of the check and the opening of the file, the
    external calls of the program are those of these runs of the
    extractor, each started where the one before it ended. *)
Theorem main_processes_url_list (file : string) (lines : list string) :
  result D = Ret true →
  truthy (arg_url args) = None →
  truthy (arg_file args) = Some file →
  is_Some (fs_after D !! file) →
  open_result w (h ++ calls D) file = inr lines →
  let runs := item_runs w (arg_output args) (arg_format args) (arg_quality args)
                (read_urls lines) ((h ++ calls D) ++ [EvOpen file (inr lines)]) (fs_after D) in
  opened_files (calls R) = [file] ∧
  invocations (printed R) = read_urls lines ∧
  length runs = length (read_urls lines) ∧
  Forall2 (λ url r, ∃ h' fs', r = extract_audio w url (arg_output args) (arg_format args)
                                    (arg_quality args) h' fs')
    (read_urls lines) runs ∧
  calls R = calls D ++ EvOpen file (inr lines) :: concat (calls <$> runs).
Proof.
  intros HD Hurl Hfile [n Hn] Hopen. cbv zeta.
  split; [|split; [|split; [apply item_runs_length|split; [apply item_runs_extractor|]]]].
  all: destruct (install_dependencies_frame w h fs) as (Hfs & Hop & Hinv).
  all: fold D in Hfs, Hop, Hinv.
  all: rewrite Hfs in Hn; rewrite ?Hfs.
  - pose (P := λ R : Run unit, opened_files (calls R) = [file]).
    change (wp (main w args) h fs P). unfold main. do 4 wp_step.
    apply wp_bind, wp_use. intros r ->. fold D. rewrite HD, Hurl, Hfile, Hfs. wp_simpl.
    do 3 wp_step. apply wp_os_path_exists. rewrite Hn. wp_simpl.
    repeat (lazymatch goal with
            | |- wp (open_lines _ _) _ _ _ => fail
            | _ => wp_step
            end).
    apply wp_open_lines. rewrite Hopen. wp_simpl.
    destruct (read_urls lines) as [|url urls] eqn:Hurls; wp_simpl.
    + wp_run. subst P. cbv beta. cbn [calls printed].
      by rewrite opened_files_app, Hop.
    + apply wp_use. intros r ->.
      destruct (batch_extract_audio_announces w (url :: urls) (arg_output args) (arg_format args)
                  (arg_quality args) ((h ++ calls D) ++ [EvOpen file (inr lines)]) fs)
        as (Hres & Hinv' & Hop').
      rewrite Hres. subst P. cbv beta. cbn [calls printed].
      rewrite opened_files_app, Hop.
      change (opened_files (EvOpen file (inr lines) :: ?l)) with (file :: opened_files l).
      by rewrite Hop'.
  - pose (P := λ R : Run unit, invocations (printed R) = read_urls lines).
    change (wp (main w args) h fs P). unfold main. do 4 wp_step.
    apply wp_bind, wp_use. intros r ->. fold D. rewrite HD, Hurl, Hfile, Hfs. wp_simpl.
    do 3 wp_step. apply wp_os_path_exists. rewrite Hn. wp_simpl.
    repeat (lazymatch goal with
            | |- wp (open_lines _ _) _ _ _ => fail
            | _ => wp_step
            end).
    apply wp_open_lines. rewrite Hopen. wp_simpl.
    destruct (read_urls lines) as [|url urls] eqn:Hurls; wp_simpl.
    + wp_run. subst P. cbv beta. cbn [calls printed].
      rewrite !invocations_skip by reflexivity.
      by rewrite invocations_app, Hinv.
    + apply wp_use. intros r ->.
      destruct (batch_extract_audio_announces w (url :: urls) (arg_output args) (arg_format args)
                  (arg_quality args) ((h ++ calls D) ++ [EvOpen file (inr lines)]) fs)
        as (Hres & Hinv' & Hop').
      rewrite Hres. subst P. cbv beta. cbn [calls printed].
      rewrite !invocations_skip by reflexivity.
      by rewrite invocations_app, Hinv, Hinv'.
  - pose (P := λ R : Run unit,
      calls R = calls D ++ EvOpen file (inr lines) ::
        concat (calls <$> item_runs w (arg_output args) (arg_format args) (arg_quality args)
                  (read_urls lines) ((h ++ calls D) ++ [EvOpen file (inr lines)]) fs)).
    change (wp (main w args) h fs P). unfold main. do 4 wp_step.
    apply wp_bind, wp_use. intros r ->. fold D. rewrite HD, Hurl, Hfile, Hfs. wp_simpl.
    do 3 wp_step. apply wp_os_path_exists. rewrite Hn. wp_simpl.
    repeat (lazymatch goal with
            | |- wp (open_lines _ _) _ _ _ => fail
            | _ => wp_step
            end).
    apply wp_open_lines. rewrite Hopen. wp_simpl.
    subst P. cbv beta.
    destruct (read_urls lines) as [|url urls] eqn:Hurls; wp_simpl.
    + wp_run. cbn [calls]. reflexivity.
    + apply wp_use. intros r ->.
      destruct (batch_extract_audio_trace w (url :: urls) (arg_output args) (arg_format args)
                  (arg_quality args) ((h ++ calls D) ++ [EvOpen file (inr lines)]) fs)
        as (Hres & Hcalls & _).
      rewrite Hres. cbn [calls]. by rewrite Hcalls.
Qed.

End MainMore.

Lemma main_exits_before_extraction_witness :
  let R := main working_world (mkArgs None (Some "missing.txt") "audio" "mp3" "128k") [] ∅ in
  result R = Exit 1 ∧ extraction_attempted (calls R) = false ∧ invocations (printed R) = [].
Proof.
  cbv zeta. split; [reflexivity|].
  exact (proj2 (main_exits_before_extraction working_world
                  (mkArgs None (Some "missing.txt") "audio" "mp3" "128k") [] ∅ 1 eq_refl)).
Defined.

Lemma main_raises_only_from_check_witness :
  let args := mkArgs (Some "https://example.com/v1") None "audio" "mp3" "128k" in
  let e := OSError "[Errno 2] No such file or directory: 'which'" in
  result (main no_which_world args [] ∅) = Raise e ∧
  result (install_dependencies no_which_world [] ∅) = Raise e ∧
  calls (main no_which_world args [] ∅) = calls (install_dependencies no_which_world [] ∅).
Proof.
  cbv zeta. split; [reflexivity|].
  exact (main_raises_only_from_check no_which_world
           (mkArgs (Some "https://example.com/v1") None "audio" "mp3" "128k") [] ∅
           (OSError "[Errno 2] No such file or directory: 'which'") eq_refl).
Defined.

Lemma main_processes_url_list_witness :
  let args := mkArgs None (Some "urls.txt") "audio" "mp3" "128k" in
  let w := one_bad_url_world in
  let fs : gmap string node := {[ "urls.txt" := File ]} in
  let lines := [ "https://example.com/v1" +:+ nl; nl; "https://example.com/v2" +:+ nl;
                 "  https://example.com/v3" ] in
  let urls := ["https://example.com/v1"; "https://example.com/v2"; "https://example.com/v3"] in
  let D := install_dependencies w [] fs in
  let R := main w args [] fs in
  let runs := item_runs w "audio" "mp3" "128k" urls
                (([] ++ calls D) ++ [EvOpen "urls.txt" (inr lines)]) (fs_after D) in
  opened_files (calls R) = ["urls.txt"] ∧
  invocations (printed R) = urls ∧
  length runs = 3%nat ∧
  Forall2 (λ url r, ∃ h' fs', r = extract_audio w url "audio" "mp3" "128k" h' fs') urls runs ∧
  calls R = calls D ++ EvOpen "urls.txt" (inr lines) :: concat (calls <$> runs).
Proof.
  cbv zeta.
  refine (main_processes_url_list one_bad_url_world
            (mkArgs None (Some "urls.txt") "audio" "mp3" "128k") [] {[ "urls.txt" := File ]}
            "urls.txt"
            [ "https://example.com/v1" +:+ nl; nl; "https://example.com/v2" +:+ nl;
              "  https://example.com/v3" ]
            eq_refl eq_refl eq_refl _ eq_refl).
  exists File. reflexivity.
Defined.

(** * The URL list *)

Lemma append_cons a s t : String a s +:+ t = String a (s +:+ t).
Proof. reflexivity. Qed.

Lemma append_nil_r s : s +:+ "" = s.
Proof. induction s as [|a s IH]; [done|]. by rewrite append_cons, IH. Qed.

Lemma append_assoc s t v : (s +:+ t) +:+ v = s +:+ (t +:+ v).
Proof. induction s as [|a s IH]; [done|]. by rewrite !append_cons, IH. Qed.

Lemma rev_app_append s t : String.rev_app s t = String.rev s +:+ t.
Proof.
  revert t. induction s as [|a s IH]; intros t; [done|].
  unfold String.rev. cbn [String.rev_app]. rewrite (IH (String a "")), IH.
  by rewrite append_assoc.
Qed.

Lemma rev_append s t : String.rev (s +:+ t) = String.rev t +:+ String.rev s.
Proof.
  induction s as [|a s IH]; [by rewrite append_nil_r|].
  rewrite append_cons. unfold String.rev at 1 3. cbn [String.rev_app].
  by rewrite !rev_app_append, IH, append_assoc.
Qed.

Lemma rev_involutive s : String.rev (String.rev s) = s.
Proof.
  induction s as [|a s IH]; [done|].
  unfold String.rev at 2. cbn [String.rev_app]. by rewrite rev_app_append, rev_append, IH.
Qed.

Lemma lstrip_blank s : blank s = true → lstrip s = "".
Proof.
  induction s as [|a s IH]; [done|]. cbn [blank lstrip].
  intros [Ha Hs]%andb_true_iff. rewrite Ha. by apply IH.
Qed.

Lemma strip_blank s : blank s = true → strip s = "".
Proof. intros H. unfold strip. by rewrite (lstrip_blank s H). Qed.

(** What [lstrip] leaves starts with no white space, and is the end of
    what it was given. *)
Lemma lstrip_spec n : ∀ s, (String.length s ≤ n)%nat →
  (∀ a, first_char (lstrip s) = Some a → space1 a = false) ∧
  (∃ p, s = p +:+ lstrip s).
Proof.
  induction n as [|n IH]; intros s Hn.
  { destruct s; [|cbn in Hn; lia]. split; [done|]. by exists "". }
  destruct s as [|a s1]; [split; [done|by exists ""]|].
  cbn [lstrip]. cbn [String.length] in Hn.
  destruct (space1 a) eqn:Ha.
  { destruct (IH s1) as [H1 [p Hp]]; [lia|]. split; [exact H1|].
    exists (String a p). by rewrite append_cons, <- Hp. }
  destruct s1 as [|b s2].
  { split; [by intros ? [= <-]|]. by exists "". }
  cbn [String.length] in Hn.
  destruct (space2 a b).
  { destruct (IH s2) as [H1 [p Hp]]; [lia|]. split; [exact H1|].
    exists (String a (String b p)). by rewrite !append_cons, <- Hp. }
  destruct s2 as [|c s3].
  { split; [by intros ? [= <-]|]. by exists "". }
  cbn [String.length] in Hn.
  destruct (space3 a b c).
  { destruct (IH s3) as [H1 [p Hp]]; [lia|]. split; [exact H1|].
    exists (String a (String b (String c p))). by rewrite !append_cons, <- Hp. }
  split; [by intros ? [= <-]|]. by exists "".
Qed.

Lemma lstrip_rev_spec n : ∀ s, (String.length s ≤ n)%nat →
  (∀ a, first_char (lstrip_rev s) = Some a → space1 a = false) ∧
  (∃ p, s = p +:+ lstrip_rev s).
Proof.
  induction n as [|n IH]; intros s Hn.
  { destruct s; [|cbn in Hn; lia]. split; [done|]. by exists "". }
  destruct s as [|a s1]; [split; [done|by exists ""]|].
  cbn [lstrip_rev]. cbn [String.length] in Hn.
  destruct (space1 a) eqn:Ha.
  { destruct (IH s1) as [H1 [p Hp]]; [lia|]. split; [exact H1|].
    exists (String a p). by rewrite append_cons, <- Hp. }
  destruct s1 as [|b s2].
  { split; [by intros ? [= <-]|]. by exists "". }
  cbn [String.length] in Hn.
  destruct (space2 b a).
  { destruct (IH s2) as [H1 [p Hp]]; [lia|]. split; [exact H1|].
    exists (String a (String b p)). by rewrite !append_cons, <- Hp. }
  destruct s2 as [|c s3].
  { split; [by intros ? [= <-]|]. by exists "". }
  cbn [String.length] in Hn.
  destruct (space3 c b a).
  { destruct (IH s3) as [H1 [p Hp]]; [lia|]. split; [exact H1|].
    exists (String a (String b (String c p))). by rewrite !append_cons, <- Hp. }
  split; [by intros ? [= <-]|]. by exists "".
Qed.

(** [strip] leaves no ASCII white space at either end. *)
Lemma strip_ends s :
  (∀ a, first_char (strip s) = Some a → space1 a = false) ∧
  (∀ a, last_char (strip s) = Some a → space1 a = false).
Proof.
  unfold strip, last_char.
  destruct (lstrip_spec (String.length s) s) as [Hfirst _]; [done|].
  set (t := lstrip s) in *.
  destruct (lstrip_rev_spec (String.length (String.rev t)) (String.rev t)) as [Hlast [p Hp]];
    [done|].
  set (r' := lstrip_rev (String.rev t)) in *.
  split.
  - intros a Ha. apply Hfirst.
    rewrite <- (rev_involutive t), Hp, rev_append.
    destruct (String.rev r') as [|a' x]; [done|]. by rewrite append_cons.
  - intros a Ha. apply Hlast. by rewrite rev_involutive in Ha.
Qed.

(** X18.  Lines without anything but ASCII white space, the empty line
    among them, are ignored: removing such a line from the file does not
    change the URLs read. *)
Theorem read_urls_ignores_blank (l1 l2 : list string) (s : string) :
  blank s = true →
  read_urls (l1 ++ s :: l2) = read_urls (l1 ++ l2).
Proof.
  intros Hs. unfold read_urls. rewrite !filter_app, filter_cons_False; [done|].
  by rewrite (strip_blank s Hs).
Qed.

(** X19.  Every URL read is non-empty and has no ASCII white space at
    either end; in particular the newline that ends a line is gone. *)
Theorem read_urls_stripped (lines : list string) :
  Forall (λ url,
    nonempty url = true ∧
    (∀ a, first_char url = Some a → space1 a = false) ∧
    (∀ a, last_char url = Some a → space1 a = false)) (read_urls lines).
Proof.
  unfold read_urls. apply Forall_fmap, Forall_forall. intros line Hline.
  apply list_elem_of_filter in Hline as [Hne _]. cbn.
  split; [exact Hne|]. apply strip_ends.
Qed.

Lemma read_urls_ignores_blank_witness :
  blank ("  " +:+ nl) = true ∧
  read_urls ["https://example.com/v1" +:+ nl; "  " +:+ nl; "https://example.com/v2"]
  = ["https://example.com/v1"; "https://example.com/v2"].
Proof.
  split; [reflexivity|].
  etrans; [|reflexivity].
  exact (read_urls_ignores_blank ["https://example.com/v1" +:+ nl]
           ["https://example.com/v2"] ("  " +:+ nl) eq_refl).
Defined.
